(** * node_discovery.py: the SimpleSwitch13 Ryu application

    A shallow embedding of [Course Project/v3/node_discovery.py] and the
    properties of its event handlers.  Handlers are written in a small
    state-and-exception monad over the application object ([self]) and the
    world around it (messages sent to datapaths, console and log output,
    the random generator, the topology API). *)

From Stdlib Require Import ZArith QArith Ascii String Lia.
From stdpp Require Import gmap strings list fin_maps.

Local Open Scope Z_scope.

(** ** OpenFlow 1.3 constants ([ryu.ofproto.ofproto_v1_3]) *)

Module ofproto.
Definition OFPP_FLOOD : Z := 0xfffffffb.
Definition OFPP_CONTROLLER : Z := 0xfffffffd.
Definition OFPCML_NO_BUFFER : Z := 0xffff.
Definition OFP_NO_BUFFER : Z := 0xffffffff.
Definition OFPIT_APPLY_ACTIONS : Z := 4.
End ofproto.

(** ** Messages built by the parser ([datapath.ofproto_parser]) *)

(** [datapath]: the connection to one switch; [id] is its 64-bit datapath id. *)
Record Datapath := { id : N }.

(** [parser.OFPMatch(in_port=.., eth_dst=..)]; a field left out is [None]. *)
Record OFPMatch := { in_port : option Z; eth_dst : option string }.

(** [parser.OFPActionOutput(port, max_len)]; [max_len] is optional. *)
Record OFPActionOutput := { port : Z; max_len : option Z }.

(** [parser.OFPInstructionActions(type, actions)]. *)
Record OFPInstructionActions :=
  { type_ : Z; actions : list OFPActionOutput }.

(** [parser.OFPFlowMod(datapath=.., buffer_id=.., priority=.., match=..,
    instructions=.., cookie=..)]: [buffer_id] and [cookie] are keyword
    arguments that [add_flow] passes in one branch only. *)
Record OFPFlowMod := {
  fm_datapath : Datapath;
  fm_buffer_id : option Z;
  fm_priority : Z;
  fm_match : OFPMatch;
  fm_instructions : list OFPInstructionActions;
  fm_cookie : option Z }.

(** [parser.OFPPacketOut(datapath=.., buffer_id=.., in_port=.., actions=..,
    data=..)]; [data] is [None] or the raw frame. *)
Record OFPPacketOut := {
  po_datapath : Datapath;
  po_buffer_id : Z;
  po_in_port : Z;
  po_actions : list OFPActionOutput;
  po_data : option string }.

Inductive Msg :=
| FlowMod (m : OFPFlowMod)
| PacketOut (p : OFPPacketOut).

(** ** Events delivered by the framework *)

(** The Ethernet header [pkt.get_protocols(ethernet.ethernet)[0]]. *)
Record ethernet := { dst : string; src : string }.

(** [ev.msg] of an [EventOFPPacketIn]: [pi_in_port] is [msg.match["in_port"]],
    [pi_eth] the Ethernet header that heads [msg.data].  A packet-in is a
    frame with such a header: on other data the subscript of line 150
    raises [IndexError] before the handler has done anything but log. *)
Record OFPPacketIn := {
  pi_datapath : Datapath;
  pi_msg_len : Z;
  pi_total_len : Z;
  pi_buffer_id : Z;
  pi_in_port : Z;
  pi_data : string;
  pi_eth : ethernet }.

(** ** Topology objects ([ryu.topology]) *)

(** A switch of the topology API: [sw_dp] is [switch.dp]. *)
Record Switch := { sw_dp : Datapath; sw_ports : list Z }.

Record Link := {
  link_src : N * Z;
  link_dst : N * Z }.

Record Host := { host_mac : string; host_at : N * Z }.

(** Modelled from the spec: [Graph] (graph.py is not among the sources).
    The handler reads two attributes of it: [switch_path], the ordered
    sequence of switch ids of the computed route, and [ports], with
    [ports[switch][neighbor]] the local port of [switch] towards
    [neighbor]. *)
Record Graph := {
  switch_path : list Z;
  ports : gmap Z (gmap Z Z) }.

(** ** The application object and the world *)

(** The attributes of [self]. [switches], [links] and [hosts] are created by
    [get_topology] and [graph] by [handler_switch_event]; nothing reads them
    earlier. *)
Record SimpleSwitch13 := {
  mac_to_port : gmap N (gmap string Z);
  switches : list Switch;
  links : list Link;
  hosts : list Host;
  graph : option Graph }.

(** What [print] is given: a string, a string with its [end=] argument, an
    object of the topology, or the values of one of the two f-strings. *)
Inductive Printed :=
| PStr (s : string)
| PStrEnd (s e : string)
| PLink (l : Link)
| PSwitch (s : Switch)
| PHost (h : Host)
| PInstalling (dpid : Z)
| PMatchAction (m a : Z).

(** Everything a handler does to the outside, in order. *)
Inductive Effect :=
| Send (dp : Datapath) (m : Msg)
| Print (p : Printed)
| Sleep (seconds : Q)
| LogInfo (s : string)
| LogDebug (s : string) (args : list Z).

(** The world: the effects so far, the random generator ([entropy] is the
    raw output, [draws] how much of it was consumed) and the topology API,
    whose replies are indexed by the number of requests made so far. *)
Record World := {
  trace : list Effect;
  entropy : nat → Z;
  draws : nat;
  switch_reply : nat → list Switch;
  link_reply : nat → list Link;
  host_reply : nat → list Host;
  requests : nat }.

Record Sys := { self : SimpleSwitch13; world : World }.

(** ** The handler monad: state plus Python exceptions *)

Inductive Exn := ValueError | KeyError | IndexError.

Inductive Outcome (A : Type) :=
| Returned (a : A)
| Raised (e : Exn).
Arguments Returned {A} a.
Arguments Raised {A} e.

Definition M (A : Type) : Type := Sys → Sys * Outcome A.

Definition ret {A} (a : A) : M A := λ s, (s, Returned a).

Definition bind {A B} (m : M A) (k : A → M B) : M B :=
  λ s, match m s with
       | (s', Returned a) => k a s'
       | (s', Raised e) => (s', Raised e)
       end.

Definition raise {A} (e : Exn) : M A := λ s, (s, Raised e).

Notation "x <- m ;; k" := (bind m (λ x, k))
  (at level 100, m at next level, right associativity, only parsing).
Notation "m ;;; k" := (bind m (λ _, k))
  (at level 100, right associativity, only parsing).

Definition get_self : M SimpleSwitch13 := λ s, (s, Returned (self s)).

Definition set_self (a : SimpleSwitch13) : M unit :=
  λ s, ({| self := a; world := world s |}, Returned tt).

Definition emit (e : Effect) : M unit :=
  λ s, let w := world s in
       ({| self := self s;
           world := {| trace := trace w ++ [e]; entropy := entropy w;
                       draws := draws w; switch_reply := switch_reply w;
                       link_reply := link_reply w; host_reply := host_reply w;
                       requests := requests w |} |}, Returned tt).

(** [datapath.send_msg(msg)]: the call and its argument are recorded.  What
    Ryu's serialiser then does with a field that does not fit its width on
    the wire (it raises [struct.error]) is not part of the model. *)
Definition send_msg (datapath : Datapath) (msg : Msg) : M unit :=
  emit (Send datapath msg).

Definition print (p : Printed) : M unit := emit (Print p).

(** [random.randint(a, b)]: a value of [a..b] taken from the generator. *)
Definition randint (a b : Z) : M Z :=
  λ s, let w := world s in
       ({| self := self s;
           world := {| trace := trace w; entropy := entropy w;
                       draws := S (draws w); switch_reply := switch_reply w;
                       link_reply := link_reply w; host_reply := host_reply w;
                       requests := requests w |} |},
        Returned (a + entropy w (draws w) `mod` (b - a + 1))).

(** A lookup that raises [e] when it finds nothing. *)
Definition or_raise {A} (e : Exn) (o : option A) : M A :=
  match o with
  | Some v => ret v
  | None => raise e
  end.

(** [d[k]] on a dict: [KeyError] when the key is missing. *)
Definition subscript `{Countable K} {V} (d : gmap K V) (k : K) : M V :=
  or_raise KeyError (d !! k).

(** [l[i]] on a list, for an index that is not negative. *)
Definition item {A} (l : list A) (i : nat) : M A :=
  or_raise IndexError (l !! i).

(** [for x in l: body x]. *)
Fixpoint for_each {A} (l : list A) (body : A → M unit) : M unit :=
  match l with
  | [] => ret tt
  | x :: l' => body x ;;; for_each l' body
  end.

(** [SimpleSwitch13.__init__]: an empty [mac_to_port]. *)
Definition init : SimpleSwitch13 :=
  {| mac_to_port := ∅; switches := []; links := []; hosts := [];
     graph := None |}.

(** ** add_flow *)

(** Python's truth value of the [buffer_id] argument: [None] and [0] are
    false. *)
Definition truthy (buffer_id : option Z) : bool :=
  match buffer_id with
  | None => false
  | Some b => negb (b =? 0)
  end.

Definition add_flow (datapath : Datapath) (priority : Z) (match_ : OFPMatch)
    (actions : list OFPActionOutput) (buffer_id : option Z) : M unit :=
  let inst := [ {| type_ := ofproto.OFPIT_APPLY_ACTIONS; actions := actions |} ] in
  mod_ <- (if truthy buffer_id then
             ret {| fm_datapath := datapath; fm_buffer_id := buffer_id;
                    fm_priority := priority; fm_match := match_;
                    fm_instructions := inst; fm_cookie := None |}
           else
             cookie <- randint 0 255 ;;
             ret {| fm_datapath := datapath; fm_buffer_id := None;
                    fm_priority := priority; fm_match := match_;
                    fm_instructions := inst; fm_cookie := Some cookie |}) ;;
  send_msg datapath (FlowMod mod_).

(** ** switch_features_handler *)

Definition switch_features_handler (datapath : Datapath) : M unit :=
  let match_ := {| in_port := None; eth_dst := None |} in
  let actions := [ {| port := ofproto.OFPP_CONTROLLER;
                      max_len := Some ofproto.OFPCML_NO_BUFFER |} ] in
  add_flow datapath 0 match_ actions None.

(** ** _packet_in_handler *)

Definition set_mac_to_port (m : gmap N (gmap string Z)) : M unit :=
  a <- get_self ;;
  set_self {| mac_to_port := m; switches := switches a; links := links a;
              hosts := hosts a; graph := graph a |}.

(** [self.mac_to_port.setdefault(dpid, {})]. *)
Definition setdefault_table (dpid : N) : M unit :=
  a <- get_self ;;
  match mac_to_port a !! dpid with
  | Some _ => ret tt
  | None => set_mac_to_port (<[dpid := ∅]> (mac_to_port a))
  end.

(** [self.mac_to_port[dpid][src] = in_port]. *)
Definition learn (dpid : N) (src : string) (in_port : Z) : M unit :=
  a <- get_self ;;
  table <- subscript (mac_to_port a) dpid ;;
  set_mac_to_port (<[dpid := <[src := in_port]> table]> (mac_to_port a)).

Definition _packet_in_handler (msg : OFPPacketIn) : M unit :=
  (if pi_msg_len msg <? pi_total_len msg then
     emit (LogDebug "packet truncated: only %s of %s bytes"
                    [pi_msg_len msg; pi_total_len msg])
   else ret tt) ;;;
  let datapath := pi_datapath msg in
  let in_port := pi_in_port msg in
  let eth := pi_eth msg in
  let dst := dst eth in
  let src := src eth in
  let dpid := id datapath in
  setdefault_table dpid ;;;
  learn dpid src in_port ;;;
  a <- get_self ;;
  table <- subscript (mac_to_port a) dpid ;;
  out_port <- (match table !! dst with
               | Some _ => subscript table dst
               | None => ret ofproto.OFPP_FLOOD
               end) ;;
  let actions := [ {| port := out_port; max_len := None |} ] in
  let packet_out :=
    let data := if pi_buffer_id msg =? ofproto.OFP_NO_BUFFER
                then Some (pi_data msg) else None in
    send_msg datapath
      (PacketOut {| po_datapath := datapath; po_buffer_id := pi_buffer_id msg;
                    po_in_port := in_port; po_actions := actions;
                    po_data := data |}) in
  if negb (out_port =? ofproto.OFPP_FLOOD) then
    let match_ := {| in_port := Some in_port; eth_dst := Some dst |} in
    if negb (pi_buffer_id msg =? ofproto.OFP_NO_BUFFER) then
      add_flow datapath 1 match_ actions (Some (pi_buffer_id msg))
    else
      add_flow datapath 1 match_ actions None ;;;
      packet_out
  else packet_out.

(** ** get_topology *)

(** The next reply of the topology API; every request is counted. *)
Definition api {A} (reply : World → nat → A) : M A :=
  λ s, let w := world s in
       ({| self := self s;
           world := {| trace := trace w; entropy := entropy w;
                       draws := draws w; switch_reply := switch_reply w;
                       link_reply := link_reply w; host_reply := host_reply w;
                       requests := S (requests w) |} |},
        Returned (reply w (requests w))).

Definition get_switch : M (list Switch) := api switch_reply.
Definition get_link : M (list Link) := api link_reply.
Definition get_host : M (list Host) := api host_reply.

Definition set_switches (l : list Switch) : M unit :=
  a <- get_self ;;
  set_self {| mac_to_port := mac_to_port a; switches := l; links := links a;
              hosts := hosts a; graph := graph a |}.

Definition set_links (l : list Link) : M unit :=
  a <- get_self ;;
  set_self {| mac_to_port := mac_to_port a; switches := switches a; links := l;
              hosts := hosts a; graph := graph a |}.

Definition set_hosts (l : list Host) : M unit :=
  a <- get_self ;;
  set_self {| mac_to_port := mac_to_port a; switches := switches a;
              links := links a; hosts := l; graph := graph a |}.

Definition set_graph (g : Graph) : M unit :=
  a <- get_self ;;
  set_self {| mac_to_port := mac_to_port a; switches := switches a;
              links := links a; hosts := hosts a; graph := Some g |}.

(** The three assignments that open [get_topology] and end its loop body. *)
Definition refresh : M unit :=
  (l <- get_switch ;; set_switches l) ;;;
  (l <- get_link ;; set_links l) ;;;
  (l <- get_host ;; set_hosts l).

(** [len(self.switches) != len(self.hosts)]. *)
Definition unsettled : M bool :=
  a <- get_self ;;
  ret (negb (length (switches a) =? length (hosts a))%nat).

(** A computation that may not return: [None] when the fuel given to its
    loop was not enough. *)
Definition Run (A : Type) : Type := option (Sys * Outcome A).

Definition and_then {A B} (r : Run A) (k : A → M B) : Run B :=
  match r with
  | None => None
  | Some (s, Returned a) => Some (k a s)
  | Some (s, Raised e) => Some (s, Raised e)
  end.

(** [while cond: body], run for at most [fuel] iterations. *)
Fixpoint while (fuel : nat) (cond : M bool) (body : M unit) (s : Sys) : Run unit :=
  match cond s with
  | (s1, Returned false) => Some (s1, Returned tt)
  | (s1, Raised e) => Some (s1, Raised e)
  | (s1, Returned true) =>
      match fuel with
      | O => None
      | S fuel' =>
          match body s1 with
          | (s2, Returned _) => while fuel' cond body s2
          | (s2, Raised e) => Some (s2, Raised e)
          end
      end
  end.

Definition CR : string := String (Ascii.ascii_of_nat 13) "".
Definition LF : string := String (Ascii.ascii_of_nat 10) "".

(** [time.sleep(0.05)]. *)
Definition poll_interval : Q := 5 # 100.

Definition get_topology (fuel : nat) (s : Sys) : Run unit :=
  match refresh s with
  | (s1, Returned _) =>
      while fuel unsettled
        (emit (Sleep poll_interval) ;;;
         print (PStr (CR +:+ "Loading....")) ;;;
         refresh) s1
  | (s1, Raised e) => Some (s1, Raised e)
  end.

(** The loop of [get_topology], with [fuel] turns at most. *)
Local Abbreviation loop fuel :=
  (while fuel unsettled
     (emit (Sleep poll_interval) ;;;
      print (PStr (CR +:+ "Loading....")) ;;;
      refresh)).

(** ** handler_switch_event *)

(** [ryu.lib.dpid.dpid_to_str]: ['%016x' % dpid]. *)
Definition hex_digit (d : N) : ascii :=
  match d with
  | 0 => "0" | 1 => "1" | 2 => "2" | 3 => "3" | 4 => "4" | 5 => "5"
  | 6 => "6" | 7 => "7" | 8 => "8" | 9 => "9" | 10 => "a" | 11 => "b"
  | 12 => "c" | 13 => "d" | 14 => "e" | _ => "f"
  end%N%char.

Fixpoint hex_digits (fuel : nat) (n : N) (acc : string) : string :=
  match fuel with
  | O => acc
  | S fuel' =>
      if (n =? 0)%N then acc
      else hex_digits fuel' (n / 16)%N (String (hex_digit (n `mod` 16)%N) acc)
  end.

Definition dpid_to_str (dpid : N) : string :=
  let digits := hex_digits (N.to_nat (N.size dpid)) dpid "" in
  String.concat "" (replicate (16 - String.length digits) "0") +:+ digits.

(** [switch.to_dict()] of [ryu.topology.switches.Switch]: the datapath id
    as a string of hexadecimal digits, and the ports. *)
Record SwitchDict := { d_dpid : string; d_ports : list Z }.

Definition to_dict (switch : Switch) : SwitchDict :=
  {| d_dpid := dpid_to_str (id (sw_dp switch)); d_ports := sw_ports switch |}.

(** Python's [int(s)] on the strings [to_dict] yields, which hold
    hexadecimal digits only: the decimal value, or [ValueError] at a
    character that is not a decimal digit. *)
Definition decimal_digit (c : ascii) : option Z :=
  let n := Z.of_N (Ascii.N_of_ascii c) in
  if (48 <=? n) && (n <=? 57) then Some (n - 48) else None.

Fixpoint decimal (s : string) (acc : Z) : option Z :=
  match s with
  | EmptyString => Some acc
  | String c s' =>
      match decimal_digit c with
      | Some d => decimal s' (10 * acc + d)
      | None => None
      end
  end.

Definition int_value (s : string) : option Z :=
  match s with
  | EmptyString => None
  | _ => decimal s 0
  end.

Definition int (s : string) : M Z := or_raise ValueError (int_value s).

(** [l.index(x)]: the first position of [x], [ValueError] when absent. *)
Fixpoint index_opt (x : Z) (l : list Z) : option nat :=
  match l with
  | [] => None
  | y :: l' => if decide (y = x) then Some O else S <$> index_opt x l'
  end.

Definition index (l : list Z) (x : Z) : M nat :=
  or_raise ValueError (index_opt x l).

(** The body of [for switch in self.switches] (lines 230-262); [length] is
    [len(self.graph.switch_path)]. *)
Definition program_switch (g : Graph) (length : Z) (switch : Switch) : M unit :=
  let data := to_dict switch in
  n <- int (d_dpid data) ;;
  let src_id := n - 1 in
  if bool_decide (src_id ∉ switch_path g) then ret tt
  else
    i <- index (switch_path g) src_id ;;
    let datapath := sw_dp switch in
    in_port <- (if bool_decide (i = O) then ret 1
                else
                  row <- subscript (ports g) src_id ;;
                  prev <- item (switch_path g) (i - 1)%nat ;;
                  subscript row prev) ;;
    out_port <- (if Z.of_nat i =? length - 1 then ret 1
                 else
                   row <- subscript (ports g) src_id ;;
                   next <- item (switch_path g) (i + 1)%nat ;;
                   subscript row next) ;;
    print (PInstalling (src_id + 1)) ;;;
    print (PMatchAction in_port out_port) ;;;
    add_flow datapath 200 {| in_port := Some in_port; eth_dst := None |}
             [ {| port := out_port; max_len := None |} ] None ;;;
    print (PMatchAction out_port in_port) ;;;
    add_flow datapath 200 {| in_port := Some out_port; eth_dst := None |}
             [ {| port := in_port; max_len := None |} ] None.

(** Lines 227-262: the flows of the computed path. *)
Definition install_flows (g : Graph) : M unit :=
  print (PStr (LF +:+ "Flows:")) ;;;
  let length := Z.of_nat (length (switch_path g)) in
  a <- get_self ;;
  for_each (switches a) (program_switch g length).

(** [new_Graph] stands for the constructor [Graph(switches, hosts, links)]
    of graph.py. *)
Definition handler_switch_event
    (new_Graph : list Switch → list Host → list Link → Graph)
    (fuel : nat) (s : Sys) : Run unit :=
  and_then
    (match print (PStrEnd "New Switch" "") s with
     | (s1, Returned _) => get_topology fuel s1
     | (s1, Raised e) => Some (s1, Raised e)
     end)
    (λ _,
       print (PStr "-------------------------------------------------") ;;;
       print (PStr (LF +:+ "All Links:")) ;;;
       (a <- get_self ;; for_each (links a) (λ l, print (PLink l))) ;;;
       print (PStr (LF +:+ "All Switches:")) ;;;
       (a <- get_self ;; for_each (switches a) (λ s, print (PSwitch s))) ;;;
       print (PStr (LF +:+ "All Hosts:")) ;;;
       (a <- get_self ;; for_each (hosts a) (λ h, print (PHost h))) ;;;
       (a <- get_self ;;
        set_graph (new_Graph (switches a) (hosts a) (links a))) ;;;
       a <- get_self ;;
       match graph a with
       | Some g => install_flows g
       | None => ret tt
       end).

(** ** handler_switch_leave *)

Definition handler_switch_leave : M unit :=
  emit (LogInfo "Not tracking Switches, switch leaved.").

(** ** Reading a run: what a handler added to the world *)

(** [advance l k s]: [s] after the effects [l] and [k] draws from the random
    generator. *)
Definition advance (l : list Effect) (k : nat) (s : Sys) : Sys :=
  let w := world s in
  {| self := self s;
     world := {| trace := trace w ++ l; entropy := entropy w;
                 draws := (k + draws w)%nat; switch_reply := switch_reply w;
                 link_reply := link_reply w; host_reply := host_reply w;
                 requests := requests w |} |}.

(** The effects of a run from [s] to [s']. *)
Definition effects_since (s s' : Sys) : list Effect :=
  drop (length (trace (world s))) (trace (world s')).

(** The messages among some effects, with the datapath each was sent to. *)
Definition sent (l : list Effect) : list (Datapath * Msg) :=
  omap (λ e, match e with Send dp m => Some (dp, m) | _ => None end) l.

Definition is_packet_out (m : Msg) : bool :=
  match m with PacketOut _ => true | FlowMod _ => false end.

(** The cookie [add_flow] draws in state [s]. *)
Definition next_cookie (s : Sys) : Z :=
  0 + entropy (world s) (draws (world s)) `mod` (255 - 0 + 1).

(** The MAC table of switch [dpid] in [s]; empty when the switch has none
    yet. *)
Definition mac_table (s : Sys) (dpid : N) : gmap string Z :=
  default ∅ (mac_to_port (self s) !! dpid).

(** [s] once the source of [msg] is recorded (lines 156-159). *)
Definition learned (msg : OFPPacketIn) (s : Sys) : Sys :=
  let a := self s in
  let dpid := id (pi_datapath msg) in
  {| self := {| mac_to_port :=
                  <[dpid := <[src (pi_eth msg) := pi_in_port msg]>
                              (mac_table s dpid)]> (mac_to_port a);
                switches := switches a; links := links a; hosts := hosts a;
                graph := graph a |};
     world := world s |}.

(** What line 138 logs for [msg]. *)
Definition truncation_log (msg : OFPPacketIn) : list Effect :=
  if pi_msg_len msg <? pi_total_len msg then
    [LogDebug "packet truncated: only %s of %s bytes"
              [pi_msg_len msg; pi_total_len msg]]
  else [].

(** The output actions a message carries. *)
Definition msg_actions (m : Msg) : list OFPActionOutput :=
  match m with
  | FlowMod f => fm_instructions f ≫= actions
  | PacketOut p => po_actions p
  end.

(** Some messages went out and each carries the single action "output to
    port [p]". *)
Definition answers_with (p : Z) (l : list (Datapath * Msg)) : Prop :=
  l ≠ [] ∧ Forall (λ dm, msg_actions dm.2 = [ {| port := p; max_len := None |} ]) l.

(** The forwarding decisions for a packet held under [buffer_id]: a
    packet-out, or a flow-mod that names the buffer. *)
Definition is_decision (buffer_id : Z) (m : Msg) : bool :=
  match m with
  | PacketOut _ => true
  | FlowMod f => bool_decide (fm_buffer_id f = Some buffer_id)
  end.

Definition decisions (buffer_id : Z) (l : list (Datapath * Msg)) : nat :=
  length (filter (λ dm, is_decision buffer_id dm.2 = true) l).

(** The packets of a run, handled one after the other. *)
Definition handle_packets (l : list OFPPacketIn) : M unit :=
  for_each l _packet_in_handler.

(** ** Sample inputs *)

(** A world in which nothing has happened yet. *)
Definition quiet : World :=
  {| trace := []; entropy := λ n, Z.of_nat n; draws := 0;
     switch_reply := λ _, []; link_reply := λ _, []; host_reply := λ _, [];
     requests := 0 |}.

(** The application right after [__init__]. *)
Definition fresh : Sys := {| self := init; world := quiet |}.

Definition packet (dpid : N) (in_port buffer_id : Z) (src dst : string) : OFPPacketIn :=
  {| pi_datapath := {| id := dpid |}; pi_msg_len := 64; pi_total_len := 64;
     pi_buffer_id := buffer_id; pi_in_port := in_port;
     pi_data := "frame"; pi_eth := {| dst := dst; src := src |} |}.

Definition mac_a : string := "00:00:00:00:00:01".
Definition mac_b : string := "00:00:00:00:00:02".

(** ** The polls of get_topology *)

(** What the topology API answers to the [k]-th poll of a [get_topology]
    that starts in [s]; a poll is three requests. *)
Definition polled_switches (s : Sys) (k : nat) : list Switch :=
  switch_reply (world s) (3 * k + requests (world s)).

Definition polled_links (s : Sys) (k : nat) : list Link :=
  link_reply (world s) (3 * k + 1 + requests (world s)).

Definition polled_hosts (s : Sys) (k : nat) : list Host :=
  host_reply (world s) (3 * k + 2 + requests (world s)).

(** The [k]-th poll reports as many switches as hosts. *)
Definition settled (s : Sys) (k : nat) : Prop :=
  length (polled_switches s k) = length (polled_hosts s k).

Global Instance settled_dec s k : Decision (settled s k) :=
  decide (length (polled_switches s k) = length (polled_hosts s k)).

(** What one turn of the loop does before it polls again. *)
Definition waiting : list Effect :=
  [Sleep poll_interval; Print (PStr (CR +:+ "Loading...."))].

(** [s] after its [k]-th poll: [k] turns of the loop are behind. *)
Definition polled (k : nat) (s : Sys) : Sys :=
  let w := world s in
  {| self := {| mac_to_port := mac_to_port (self s);
                switches := polled_switches s k;
                links := polled_links s k;
                hosts := polled_hosts s k;
                graph := graph (self s) |};
     world := {| trace := trace w ++ concat (replicate k waiting);
                 entropy := entropy w; draws := draws w;
                 switch_reply := switch_reply w; link_reply := link_reply w;
                 host_reply := host_reply w;
                 requests := 3 * S k + requests w |} |}.

(** ** Reading the path-programming loop *)

(** [int(data["dpid"]) - 1] for [switch], when [int] accepts the string. *)
Definition src_id_of (switch : Switch) : option Z :=
  (λ n, n - 1) <$> int_value (d_dpid (to_dict switch)).

(** [ports[a][switch_path[j]]], when each subscript finds something. *)
Definition port_towards (g : Graph) (a : Z) (j : nat) : option Z :=
  row ← ports g !! a; b ← switch_path g !! j; row !! b.

(** The ports lines 242-250 choose for the switch with id [a] at position
    [i] of the path. *)
Definition ingress_port (g : Graph) (a : Z) (i : nat) : option Z :=
  if decide (i = 0%nat) then Some 1 else port_towards g a (i - 1).

Definition egress_port (g : Graph) (a : Z) (i : nat) : option Z :=
  if decide (S i = length (switch_path g)) then Some 1
  else port_towards g a (i + 1).

(** The flow-mod of lines 255-257 and 260-262: match on [inp], output to
    [outp], priority 200. *)
Definition path_rule (datapath : Datapath) (inp outp cookie : Z) : OFPFlowMod :=
  {| fm_datapath := datapath; fm_buffer_id := None; fm_priority := 200;
     fm_match := {| in_port := Some inp; eth_dst := None |};
     fm_instructions :=
       [ {| type_ := ofproto.OFPIT_APPLY_ACTIONS;
            actions := [ {| port := outp; max_len := None |} ] |} ];
     fm_cookie := Some cookie |}.

(** [f] and [b] are the forward and the reverse rule of the switch at
    position [i] of the path: [f] matches the ingress port and outputs to the
    egress port, [b] matches the egress port and outputs to the ingress
    port.  The first hop enters and the last hop leaves by port 1; between
    switches the ports are those of [ports]. *)
Definition path_pair (g : Graph) (sws : list Switch) (i : nat)
    (f b : OFPFlowMod) : Prop :=
  ∃ sw a inp outp cf cb,
    sw ∈ sws ∧ switch_path g !! i = Some a ∧ src_id_of sw = Some a
    ∧ ingress_port g a i = Some inp ∧ egress_port g a i = Some outp
    ∧ 0 ≤ cf ≤ 255 ∧ 0 ≤ cb ≤ 255
    ∧ f = path_rule (sw_dp sw) inp outp cf
    ∧ b = path_rule (sw_dp sw) outp inp cb.

(** The messages of a list of rule pairs, in the order they are sent. *)
Definition pair_messages (rules : list (nat * OFPFlowMod * OFPFlowMod))
    : list (Datapath * Msg) :=
  rules ≫= λ r, [(fm_datapath r.1.2, FlowMod r.1.2);
                  (fm_datapath r.2, FlowMod r.2)].

(** The line of three switches of the spec's scenario, 1 - 2 - 3: port 1
    of each faces its host, ports 2 and 3 face the neighbours. *)
Definition line_switch (dpid : N) : Switch :=
  {| sw_dp := {| id := dpid |}; sw_ports := [1; 2; 3] |}.

Definition line_graph : Graph :=
  {| switch_path := [0; 1; 2];
     ports := {[ 0 := {[ 1 := 2 ]};
                 1 := {[ 0 := 2; 2 := 3 ]};
                 2 := {[ 1 := 2 ]} ]} |}.

(** The application once [get_topology] has seen the line, and a fourth
    switch that is not on the path. *)
Definition line : Sys :=
  {| self := {| mac_to_port := ∅;
                switches := [line_switch 2; line_switch 1; line_switch 3;
                             line_switch 7];
                links := []; hosts := []; graph := Some line_graph |};
     world := quiet |}.

(** A topology API that knows both switches of a pair from the start and
    their second host only from its sixth request on. *)
Definition booting : Sys :=
  {| self := init;
     world := {| trace := []; entropy := λ n, Z.of_nat n; draws := 0;
                 switch_reply := λ _, [line_switch 1; line_switch 2];
                 link_reply := λ _, [];
                 host_reply := λ n,
                   {| host_mac := mac_a; host_at := (1%N, 1) |}
                   :: (if (n <? 5)%nat then []
                       else [ {| host_mac := mac_b; host_at := (2%N, 1) |} ]);
                 requests := 0 |} |}.

(** ** Reading handler_switch_event *)

(** What lines 212-223 print for the topology in [s]. *)
Definition listing (s : Sys) : list Effect :=
  [Print (PStr "-------------------------------------------------");
   Print (PStr (LF +:+ "All Links:"))]
  ++ (Print ∘ PLink <$> links (self s))
  ++ [Print (PStr (LF +:+ "All Switches:"))]
  ++ (Print ∘ PSwitch <$> switches (self s))
  ++ [Print (PStr (LF +:+ "All Hosts:"))]
  ++ (Print ∘ PHost <$> hosts (self s)).

(** [s] with [self.graph] set to [g]. *)
Definition with_graph (g : Graph) (s : Sys) : Sys :=
  {| self := {| mac_to_port := mac_to_port (self s);
                switches := switches (self s); links := links (self s);
                hosts := hosts (self s); graph := Some g |};
     world := world s |}.

(** ** More sample inputs *)

(** A topology API that reports one switch and never a host. *)
Definition stalled : Sys :=
  {| self := init;
     world := {| trace := []; entropy := λ n, Z.of_nat n; draws := 0;
                 switch_reply := λ _, [line_switch 1];
                 link_reply := λ _, []; host_reply := λ _, [];
                 requests := 0 |} |}.

(** The path of the line with no port known. *)
Definition portless_graph : Graph :=
  {| switch_path := [0; 1; 2]; ports := ∅ |}.

(** [g] with its path walked from the other end. *)
Definition reversed (g : Graph) : Graph :=
  {| switch_path := reverse (switch_path g); ports := ports g |}.

(** What a message asks of its switch: the match and priority of a
    flow-mod, and the output actions. *)
Definition rule_shape (dm : Datapath * Msg)
    : Datapath * option (OFPMatch * Z) * list OFPActionOutput :=
  (dm.1,
   match dm.2 with
   | FlowMod f => Some (fm_match f, fm_priority f)
   | PacketOut _ => None
   end,
   msg_actions dm.2).

(** The ingress port of the last packet of [l] that came from [mac] at
    switch [dpid], if there is one. *)
Fixpoint last_seen (dpid : N) (mac : string) (l : list OFPPacketIn)
    : option Z :=
  match l with
  | [] => None
  | m :: l' =>
      match last_seen dpid mac l' with
      | Some p => Some p
      | None =>
          if decide (id (pi_datapath m) = dpid ∧ src (pi_eth m) = mac)
          then Some (pi_in_port m) else None
      end
  end.

(** ** The two halves of the loop body *)

(** Lines 230-250, the body up to its first [print]: the id of the switch
    and its two ports, or [None] where the loop says [continue]. *)
Definition path_ports (g : Graph) (length : Z) (switch : Switch)
    : M (option (Z * Z * Z)) :=
  let data := to_dict switch in
  n <- int (d_dpid data) ;;
  let src_id := n - 1 in
  if bool_decide (src_id ∉ switch_path g) then ret None
  else
    i <- index (switch_path g) src_id ;;
    in_port <- (if bool_decide (i = O) then ret 1
                else
                  row <- subscript (ports g) src_id ;;
                  prev <- item (switch_path g) (i - 1)%nat ;;
                  subscript row prev) ;;
    out_port <- (if Z.of_nat i =? length - 1 then ret 1
                 else
                   row <- subscript (ports g) src_id ;;
                   next <- item (switch_path g) (i + 1)%nat ;;
                   subscript row next) ;;
    ret (Some (src_id, in_port, out_port)).

(** Lines 252-262: the two rules of a switch. *)
Definition install_pair (datapath : Datapath) (src_id in_port out_port : Z)
    : M unit :=
  print (PInstalling (src_id + 1)) ;;;
  print (PMatchAction in_port out_port) ;;;
  add_flow datapath 200 {| in_port := Some in_port; eth_dst := None |}
           [ {| port := out_port; max_len := None |} ] None ;;;
  print (PMatchAction out_port in_port) ;;;
  add_flow datapath 200 {| in_port := Some out_port; eth_dst := None |}
           [ {| port := in_port; max_len := None |} ] None.

(** ** A path of [n] switches *)

(** Switches 1 to [n] in a row, as Mininet numbers them; the graph calls
    them 0 to [n - 1].  Port 2 of a switch faces the switch before it and
    port 3 the switch after it. *)
Definition chain_graph (n : nat) : Graph :=
  let path := Z.of_nat <$> seq 0 n in
  {| switch_path := path;
     ports := list_to_map
                ((λ a, (a, {[ a - 1 := 2; a + 1 := 3 ]})) <$> path) |}.

Definition chain (n : nat) : Sys :=
  {| self := {| mac_to_port := ∅;
                switches := (λ k, line_switch (N.of_nat (S k))) <$> seq 0 n;
                links := []; hosts := []; graph := Some (chain_graph n) |};
     world := quiet |}.

(** The line with a switch of datapath id 10, which is not on the path,
    discovered second. *)
Definition line_and_ten : Sys :=
  {| self := {| mac_to_port := ∅;
                switches := [line_switch 1; line_switch 10; line_switch 2;
                             line_switch 3];
                links := []; hosts := []; graph := Some line_graph |};
     world := quiet |}.

(** ** Proof automation *)

(** A closed decidable proposition, settled by running its decision
    procedure. *)
Ltac decide_by_evaluation :=
  refine (bool_decide_unpack _ _); vm_compute; exact I.

(** * Properties *)

(** ** Reading a run *)

Lemma advance_self l k s : self (advance l k s) = self s.
Proof. reflexivity. Qed.

Lemma advance_trace l k s :
  trace (world (advance l k s)) = trace (world s) ++ l.
Proof. reflexivity. Qed.

Lemma advance_advance l k l' k' s :
  advance l' k' (advance l k s) = advance (l ++ l') (k + k') s.
Proof.
  unfold advance; simpl.
  by rewrite <- (assoc_L (++)), Nat.add_assoc, (Nat.add_comm k' k).
Qed.

Lemma advance_nil s : advance [] 0 s = s.
Proof.
  destruct s as [a w]; destruct w; unfold advance; simpl.
  by rewrite (right_id_L [] (++)).
Qed.

Lemma effects_since_advance l k s : effects_since s (advance l k s) = l.
Proof. unfold effects_since. rewrite advance_trace. apply drop_app_length. Qed.

Lemma emit_advance e s : emit e s = (advance [e] 0 s, Returned tt).
Proof. reflexivity. Qed.

Lemma randint_advance a b s :
  randint a b s =
  (advance [] 1 s,
   Returned (a + entropy (world s) (draws (world s)) `mod` (b - a + 1))).
Proof.
  unfold randint, advance. by rewrite (right_id_L [] (++)).
Qed.

(** ** add_flow: one flow-mod per call *)

Lemma next_cookie_range s : 0 ≤ next_cookie s ≤ 255.
Proof.
  unfold next_cookie.
  pose proof (Z.mod_pos_bound (entropy (world s) (draws (world s))) (255 - 0 + 1)).
  lia.
Qed.

Lemma add_flow_buffered datapath priority match_ acts b s :
  b ≠ 0 →
  add_flow datapath priority match_ acts (Some b) s =
  (advance
     [Send datapath
        (FlowMod {| fm_datapath := datapath; fm_buffer_id := Some b;
                    fm_priority := priority; fm_match := match_;
                    fm_instructions :=
                      [ {| type_ := ofproto.OFPIT_APPLY_ACTIONS;
                           actions := acts |} ];
                    fm_cookie := None |})] 0 s,
   Returned tt).
Proof.
  intros Hb. unfold add_flow, truthy.
  destruct (Z.eqb_spec b 0) as [|_]; [done|]. simpl.
  unfold bind, ret, send_msg. by rewrite emit_advance.
Qed.

Lemma add_flow_cookie datapath priority match_ acts buffer_id s :
  truthy buffer_id = false →
  add_flow datapath priority match_ acts buffer_id s =
  (advance
     [Send datapath
        (FlowMod {| fm_datapath := datapath; fm_buffer_id := None;
                    fm_priority := priority; fm_match := match_;
                    fm_instructions :=
                      [ {| type_ := ofproto.OFPIT_APPLY_ACTIONS;
                           actions := acts |} ];
                    fm_cookie := Some (next_cookie s) |})] 1 s,
   Returned tt).
Proof.
  intros Hb. unfold add_flow. rewrite Hb.
  unfold bind, ret, send_msg. rewrite randint_advance, emit_advance.
  by rewrite advance_advance.
Qed.

(** ** _packet_in_handler, evaluated *)

Lemma learn_source msg s :
  (setdefault_table (id (pi_datapath msg)) ;;;
   learn (id (pi_datapath msg)) (src (pi_eth msg)) (pi_in_port msg)) s =
  (learned msg s, Returned tt).
Proof.
  unfold learned, mac_table, bind, setdefault_table, learn, get_self,
    set_mac_to_port, bind, get_self, set_self, subscript, or_raise, ret.
  destruct s as [a w]; simpl.
  destruct (mac_to_port a !! id (pi_datapath msg)) as [t|] eqn:Ht; simpl.
  - by rewrite Ht.
  - rewrite lookup_insert_eq. simpl. by rewrite insert_insert_eq.
Qed.

Lemma learned_table msg s :
  mac_to_port (self (learned msg s)) !! id (pi_datapath msg) =
  Some (<[src (pi_eth msg) := pi_in_port msg]>
          (mac_table s (id (pi_datapath msg)))).
Proof. unfold learned; simpl. apply lookup_insert_eq. Qed.

(** The port line 161-164 chooses for [msg] in [s]. *)
Lemma packet_in_eval msg s :
  let datapath := pi_datapath msg in
  let table := <[src (pi_eth msg) := pi_in_port msg]>
                 (mac_table s (id datapath)) in
  let out_port := default ofproto.OFPP_FLOOD (table !! dst (pi_eth msg)) in
  let acts := [ {| port := out_port; max_len := None |} ] in
  let s1 := learned msg (advance (truncation_log msg) 0 s) in
  let packet_out :=
    Send datapath
      (PacketOut {| po_datapath := datapath;
                    po_buffer_id := pi_buffer_id msg;
                    po_in_port := pi_in_port msg; po_actions := acts;
                    po_data := if pi_buffer_id msg =? ofproto.OFP_NO_BUFFER
                               then Some (pi_data msg) else None |}) in
  let match_ := {| in_port := Some (pi_in_port msg);
                   eth_dst := Some (dst (pi_eth msg)) |} in
  _packet_in_handler msg s =
  if out_port =? ofproto.OFPP_FLOOD then (advance [packet_out] 0 s1, Returned tt)
  else if pi_buffer_id msg =? ofproto.OFP_NO_BUFFER then
    (advance [packet_out] 0
       (fst (add_flow datapath 1 match_ acts None s1)), Returned tt)
  else add_flow datapath 1 match_ acts (Some (pi_buffer_id msg)) s1.
Proof.
  intros datapath table out_port acts s1 packet_out match_.
  unfold _packet_in_handler.
  set (pre := if pi_msg_len msg <? pi_total_len msg then _ else _).
  assert (Hpre : pre s = (advance (truncation_log msg) 0 s, Returned tt)).
  { unfold pre, truncation_log. destruct (_ <? _).
    - apply emit_advance.
    - by rewrite advance_nil. }
  unfold bind at 1. rewrite Hpre.
  pose proof (learn_source msg (advance (truncation_log msg) 0 s)) as Hl.
  unfold bind at 1 in Hl.
  unfold bind at 1.
  destruct (setdefault_table _ _) as [s' [[]|e]]; [|done].
  unfold bind at 1. rewrite Hl.
  unfold bind at 1, get_self at 1. unfold bind at 1, subscript at 1.
  rewrite learned_table. cbn [or_raise ret].
  change (mac_table (advance _ 0 s) (id (pi_datapath msg)))
    with (mac_table s (id datapath)).
  fold table s1.
  assert (Hout : (match table !! dst (pi_eth msg) with
                  | Some _ => subscript table (dst (pi_eth msg))
                  | None => ret ofproto.OFPP_FLOOD
                  end) s1 = (s1, Returned out_port)).
  { unfold out_port, subscript. by destruct (table !! dst (pi_eth msg)). }
  unfold bind at 1. rewrite Hout. fold datapath acts match_.
  destruct (out_port =? ofproto.OFPP_FLOOD); cbn [negb].
  { apply emit_advance. }
  destruct (pi_buffer_id msg =? ofproto.OFP_NO_BUFFER); cbn [negb]; [|done].
  unfold bind. rewrite !(add_flow_cookie _ _ _ _ None) by done. cbn [fst].
  apply emit_advance.
Qed.

Lemma effects_since_trace s s' l :
  trace (world s') = trace (world s) ++ l → effects_since s s' = l.
Proof. unfold effects_since. intros ->. apply drop_app_length. Qed.

Lemma add_flow_advance datapath priority match_ acts buffer_id s :
  ∃ f k, add_flow datapath priority match_ acts buffer_id s =
         (advance [Send datapath (FlowMod f)] k s, Returned tt)
       ∧ fm_priority f = priority ∧ fm_match f = match_
       ∧ fm_instructions f =
           [ {| type_ := ofproto.OFPIT_APPLY_ACTIONS; actions := acts |} ]
       ∧ fm_datapath f = datapath
       ∧ (truthy buffer_id = true →
          fm_buffer_id f = buffer_id ∧ fm_cookie f = None)
       ∧ (truthy buffer_id = false →
          fm_buffer_id f = None ∧ ∃ c, fm_cookie f = Some c ∧ 0 ≤ c ≤ 255).
Proof.
  destruct (truthy buffer_id) eqn:Ht.
  - destruct buffer_id as [b|]; [|done].
    assert (b ≠ 0) by (intros ->; done).
    eexists _, _. split; [by apply add_flow_buffered|]. by simpl.
  - eexists _, _. split; [by apply add_flow_cookie|]. simpl.
    split_and!; try done. intros _. split; [done|].
    eexists. split; [done|]. apply next_cookie_range.
Qed.

(** The handler returns, and leaves [self] as line 159 made it. *)
Lemma packet_in_returns msg s :
  snd (_packet_in_handler msg s) = Returned tt
  ∧ self (fst (_packet_in_handler msg s)) = self (learned msg s).
Proof.
  pose proof (packet_in_eval msg s) as H. cbv zeta in H. rewrite H. clear H.
  repeat match goal with |- context [if ?b then _ else _] => destruct b end;
    try done.
  match goal with |- context [add_flow ?d ?p ?m ?a ?b ?s] =>
    destruct (add_flow_advance d p m a b s) as (f & k & Heq & _)
  end.
  by rewrite Heq.
Qed.

Lemma sent_app l1 l2 : sent (l1 ++ l2) = sent l1 ++ sent l2.
Proof. apply omap_app. Qed.

Lemma sent_truncation_log msg : sent (truncation_log msg) = [].
Proof. unfold truncation_log. by destruct (_ <? _). Qed.

(** The messages [_packet_in_handler] sends, by cases. *)
Lemma packet_in_sent msg s :
  let datapath := pi_datapath msg in
  let table := <[src (pi_eth msg) := pi_in_port msg]>
                 (mac_table s (id datapath)) in
  let out_port := default ofproto.OFPP_FLOOD (table !! dst (pi_eth msg)) in
  let acts := [ {| port := out_port; max_len := None |} ] in
  let packet_out :=
    (datapath,
     PacketOut {| po_datapath := datapath;
                  po_buffer_id := pi_buffer_id msg;
                  po_in_port := pi_in_port msg; po_actions := acts;
                  po_data := if pi_buffer_id msg =? ofproto.OFP_NO_BUFFER
                             then Some (pi_data msg) else None |}) in
  let flow_mod buffer_id cookie :=
    (datapath,
     FlowMod {| fm_datapath := datapath; fm_buffer_id := buffer_id;
                fm_priority := 1;
                fm_match := {| in_port := Some (pi_in_port msg);
                               eth_dst := Some (dst (pi_eth msg)) |};
                fm_instructions :=
                  [ {| type_ := ofproto.OFPIT_APPLY_ACTIONS;
                       actions := acts |} ];
                fm_cookie := cookie |}) in
  sent (effects_since s (fst (_packet_in_handler msg s))) =
  if out_port =? ofproto.OFPP_FLOOD then [packet_out]
  else if pi_buffer_id msg =? ofproto.OFP_NO_BUFFER then
    [flow_mod None (Some (next_cookie s)); packet_out]
  else if pi_buffer_id msg =? 0 then [flow_mod None (Some (next_cookie s))]
  else [flow_mod (Some (pi_buffer_id msg)) None].
Proof.
  intros datapath table out_port acts packet_out flow_mod.
  pose proof (packet_in_eval msg s) as H. cbv zeta in H. rewrite H. clear H.
  fold datapath table out_port acts.
  set (s1 := learned msg (advance (truncation_log msg) 0 s)).
  assert (Hs1 : ∀ l k, sent (effects_since s (advance l k s1)) = sent l).
  { intros l k. rewrite (effects_since_trace _ _ (truncation_log msg ++ l)).
    - by rewrite sent_app, sent_truncation_log.
    - simpl. by rewrite (assoc_L (++)). }
  destruct (out_port =? ofproto.OFPP_FLOOD); [cbn [fst]; by rewrite Hs1|].
  destruct (pi_buffer_id msg =? ofproto.OFP_NO_BUFFER).
  { rewrite add_flow_cookie by done. cbn [fst]. rewrite advance_advance.
    by rewrite Hs1. }
  destruct (Z.eqb_spec (pi_buffer_id msg) 0) as [->|Hb].
  - rewrite add_flow_cookie by done. cbn [fst]. by rewrite Hs1.
  - rewrite add_flow_buffered by done. cbn [fst]. by rewrite Hs1.
Qed.

(** ** add_flow and the handlers that only call it *)

(** C3 (add_flow), at the buffer reference 0: the call still sends exactly
    one flow-mod, but the flow-mod names no buffer and carries a cookie drawn
    from the random generator.  Python reads [if buffer_id:] as false for 0,
    which is a buffer reference like any other below [OFP_NO_BUFFER]. *)
Theorem add_flow_drops_buffer_zero datapath priority match_ acts s :
  let r := add_flow datapath priority match_ acts (Some 0) s in
  r.2 = Returned tt
  ∧ ∃ cookie, 0 ≤ cookie ≤ 255 ∧
    effects_since s r.1 =
    [Send datapath
       (FlowMod {| fm_datapath := datapath; fm_buffer_id := None;
                   fm_priority := priority; fm_match := match_;
                   fm_instructions :=
                     [ {| type_ := ofproto.OFPIT_APPLY_ACTIONS;
                          actions := acts |} ];
                   fm_cookie := Some cookie |})].
Proof.
  intros r. unfold r. rewrite add_flow_cookie by done. cbn [fst snd].
  split; [done|]. exists (next_cookie s). split; [apply next_cookie_range|].
  apply effects_since_advance.
Qed.

(** With any other buffer reference, or none, [add_flow] does what its
    callers expect: one flow-mod, which names the buffer and has no cookie,
    or has a cookie of 0..255 and names no buffer. *)
Lemma add_flow_one_message datapath priority match_ acts buffer_id s :
  buffer_id ≠ Some 0 →
  let r := add_flow datapath priority match_ acts buffer_id s in
  r.2 = Returned tt
  ∧ self r.1 = self s
  ∧ ∃ f, effects_since s r.1 = [Send datapath (FlowMod f)]
       ∧ fm_datapath f = datapath ∧ fm_priority f = priority
       ∧ fm_match f = match_
       ∧ fm_instructions f =
           [ {| type_ := ofproto.OFPIT_APPLY_ACTIONS; actions := acts |} ]
       ∧ match buffer_id with
         | Some b => fm_buffer_id f = Some b ∧ fm_cookie f = None
         | None => fm_buffer_id f = None
                   ∧ ∃ c, fm_cookie f = Some c ∧ 0 ≤ c ≤ 255
         end.
Proof.
  intros Hb r. unfold r.
  destruct (add_flow_advance datapath priority match_ acts buffer_id s)
    as (f & k & -> & Hp & Hm & Hi & Hd & Ht & Hf).
  cbn [fst snd]. split; [done|]. split; [done|]. exists f.
  rewrite effects_since_advance. split_and!; try done.
  destruct buffer_id as [b|].
  - apply Ht. simpl. destruct (Z.eqb_spec b 0) as [->|]; done.
  - by apply Hf.
Qed.

(** C10 (switch_features_handler): one flow-mod goes to the switch, the
    table-miss rule: priority 0, an empty match, and the single action
    "output to the controller, unbuffered"; [self] is as before. *)
Theorem switch_features_installs_table_miss datapath s :
  let r := switch_features_handler datapath s in
  r.2 = Returned tt
  ∧ self r.1 = self s
  ∧ ∃ cookie, 0 ≤ cookie ≤ 255 ∧
    effects_since s r.1 =
    [Send datapath
       (FlowMod {| fm_datapath := datapath; fm_buffer_id := None;
                   fm_priority := 0;
                   fm_match := {| in_port := None; eth_dst := None |};
                   fm_instructions :=
                     [ {| type_ := ofproto.OFPIT_APPLY_ACTIONS;
                          actions :=
                            [ {| port := ofproto.OFPP_CONTROLLER;
                                 max_len := Some ofproto.OFPCML_NO_BUFFER |} ]
                       |} ];
                   fm_cookie := Some cookie |})].
Proof.
  intros r. unfold r, switch_features_handler.
  rewrite add_flow_cookie by done. cbn [fst snd].
  split; [done|]. split; [done|].
  exists (next_cookie s). split; [apply next_cookie_range|].
  apply effects_since_advance.
Qed.

(** C9 (handler_switch_leave): the handler writes one line to the log and
    nothing else: no message is sent, and [mac_to_port], [switches], [links],
    [hosts] (all of [self]) are as before. *)
Theorem switch_leave_only_logs s :
  let r := handler_switch_leave s in
  r.2 = Returned tt
  ∧ effects_since s r.1 = [LogInfo "Not tracking Switches, switch leaved."]
  ∧ sent (effects_since s r.1) = []
  ∧ self r.1 = self s
  ∧ mac_to_port (self r.1) = mac_to_port (self s)
  ∧ switches (self r.1) = switches (self s)
  ∧ links (self r.1) = links (self s)
  ∧ hosts (self r.1) = hosts (self s).
Proof.
  intros r. unfold r, handler_switch_leave. rewrite emit_advance.
  cbn [fst snd]. rewrite effects_since_advance. by split_and!.
Qed.

(** ** Learning Fallback *)

(** C7 (_packet_in_handler, lines 161-189): when line 161 does not find the
    destination in the switch's MAC table (the table as line 159 left it,
    with the source of this packet recorded), the handler sends one message,
    a packet-out whose single action is the flood action; no flow-mod is
    sent. *)
Theorem unknown_destination_floods msg s :
  <[src (pi_eth msg) := pi_in_port msg]>
    (mac_table s (id (pi_datapath msg))) !! dst (pi_eth msg) = None →
  let r := _packet_in_handler msg s in
  r.2 = Returned tt
  ∧ sent (effects_since s r.1) =
    [(pi_datapath msg,
      PacketOut {| po_datapath := pi_datapath msg;
                   po_buffer_id := pi_buffer_id msg;
                   po_in_port := pi_in_port msg;
                   po_actions := [ {| port := ofproto.OFPP_FLOOD;
                                      max_len := None |} ];
                   po_data := if pi_buffer_id msg =? ofproto.OFP_NO_BUFFER
                              then Some (pi_data msg) else None |})].
Proof.
  intros Hnone r. unfold r. split; [apply packet_in_returns|].
  pose proof (packet_in_sent msg s) as H. cbv zeta in H. rewrite H. clear H.
  rewrite Hnone. by simpl.
Qed.

Lemma unknown_destination_floods_witness :
  let msg := packet 1 1 7 mac_a mac_b in
  <[src (pi_eth msg) := pi_in_port msg]>
    (mac_table fresh (id (pi_datapath msg))) !! dst (pi_eth msg) = None
  ∧ sent (effects_since fresh (_packet_in_handler msg fresh).1) =
    [({| id := 1 |},
      PacketOut {| po_datapath := {| id := 1 |}; po_buffer_id := 7;
                   po_in_port := 1;
                   po_actions := [ {| port := ofproto.OFPP_FLOOD;
                                      max_len := None |} ];
                   po_data := None |})].
Proof.
  intros msg.
  assert (H : <[src (pi_eth msg) := pi_in_port msg]>
                (mac_table fresh (id (pi_datapath msg))) !! dst (pi_eth msg)
              = None) by (vm_compute; reflexivity).
  split; [exact H|].
  exact (proj2 (unknown_destination_floods msg fresh H)).
Defined.

(** The same, read on the table before the packet: a destination that was
    never learnt at this switch and is not the packet's own source. *)
Lemma unlearned_destination_floods msg s :
  mac_table s (id (pi_datapath msg)) !! dst (pi_eth msg) = None →
  dst (pi_eth msg) ≠ src (pi_eth msg) →
  Forall (λ dm, is_packet_out dm.2 = true
                ∧ msg_actions dm.2 =
                  [ {| port := ofproto.OFPP_FLOOD; max_len := None |} ])
         (sent (effects_since s (_packet_in_handler msg s).1)).
Proof.
  intros Hnone Hne.
  pose proof (packet_in_sent msg s) as H. cbv zeta in H. rewrite H. clear H.
  rewrite lookup_insert_ne, Hnone by done. by repeat constructor.
Qed.

(** C2 (_packet_in_handler), at the buffer reference 0 and a destination
    learnt before: the only message is a flow-mod that names no buffer.  No
    packet-out follows it, so neither of the two forwarding decisions reaches
    the switch. *)
Theorem packet_in_buffer_zero_undecided :
  let s1 := (_packet_in_handler (packet 1 1 0xffffffff mac_a mac_b) fresh).1 in
  let s2 := (_packet_in_handler (packet 1 2 0 mac_b mac_a) s1).1 in
  sent (effects_since s1 s2) =
    [({| id := 1 |},
      FlowMod {| fm_datapath := {| id := 1 |}; fm_buffer_id := None;
                 fm_priority := 1;
                 fm_match := {| in_port := Some 2; eth_dst := Some mac_a |};
                 fm_instructions :=
                   [ {| type_ := ofproto.OFPIT_APPLY_ACTIONS;
                        actions := [ {| port := 1; max_len := None |} ] |} ];
                 fm_cookie := Some 0 |})]
  ∧ decisions 0 (sent (effects_since s1 s2)) = 0%nat.
Proof. vm_compute. split; reflexivity. Qed.

(** Everywhere else the handler takes exactly one decision: whenever the
    buffer reference is not 0, or the destination is unknown. *)
Lemma packet_in_one_decision msg s :
  pi_buffer_id msg ≠ 0
  ∨ <[src (pi_eth msg) := pi_in_port msg]>
      (mac_table s (id (pi_datapath msg))) !! dst (pi_eth msg) = None →
  decisions (pi_buffer_id msg)
            (sent (effects_since s (_packet_in_handler msg s).1)) = 1%nat.
Proof.
  intros Hcase.
  pose proof (packet_in_sent msg s) as H. cbv zeta in H. rewrite H. clear H.
  destruct (_ =? ofproto.OFPP_FLOOD) eqn:Hflood; [done|].
  destruct (Z.eqb_spec (pi_buffer_id msg) ofproto.OFP_NO_BUFFER) as [Hnb|Hnb].
  { unfold decisions. rewrite Hnb. by vm_compute. }
  destruct (Z.eqb_spec (pi_buffer_id msg) 0) as [Hz|Hz].
  - destruct Hcase as [|Hnone]; [done|]. by rewrite Hnone in Hflood.
  - unfold decisions. rewrite filter_cons_True; [done|].
    simpl. by rewrite bool_decide_eq_true.
Qed.

(** *** What the MAC table remembers *)

Lemma packet_in_mac_table msg s dpid :
  mac_table (_packet_in_handler msg s).1 dpid =
  if decide (dpid = id (pi_datapath msg)) then
    <[src (pi_eth msg) := pi_in_port msg]> (mac_table s dpid)
  else mac_table s dpid.
Proof.
  unfold mac_table at 1.
  rewrite (proj2 (packet_in_returns msg s)). unfold learned; simpl.
  case_decide as Hd.
  - subst dpid. by rewrite lookup_insert_eq.
  - by rewrite lookup_insert_ne.
Qed.

Lemma packet_in_keeps_entry msg s dpid mac p :
  (dpid = id (pi_datapath msg) → src (pi_eth msg) = mac → pi_in_port msg = p) →
  mac_table s dpid !! mac = Some p →
  mac_table (_packet_in_handler msg s).1 dpid !! mac = Some p.
Proof.
  intros Hsame Hin. rewrite packet_in_mac_table.
  case_decide as Hd; [|done].
  destruct (decide (src (pi_eth msg) = mac)) as [Hs|Hs].
  - rewrite <- (Hsame Hd Hs), <- Hs. apply lookup_insert_eq.
  - by rewrite lookup_insert_ne.
Qed.

Lemma handle_packets_cons msg l s :
  handle_packets (msg :: l) s =
  handle_packets l (_packet_in_handler msg s).1.
Proof.
  unfold handle_packets; simpl. unfold bind.
  pose proof (proj1 (packet_in_returns msg s)) as Hr.
  by destruct (_packet_in_handler msg s) as [s1 [[]|e]].
Qed.

Lemma handle_packets_keep_entry l s dpid mac p :
  Forall (λ m, dpid = id (pi_datapath m) → src (pi_eth m) ≠ mac) l →
  mac_table s dpid !! mac = Some p →
  (handle_packets l s).2 = Returned tt
  ∧ mac_table (handle_packets l s).1 dpid !! mac = Some p.
Proof.
  intros Hl. revert s. induction Hl as [|msg l Hmsg _ IH]; intros s Hin.
  - done.
  - rewrite handle_packets_cons. apply IH.
    apply packet_in_keeps_entry; [|done]. intros Hd Hs. by destruct Hmsg.
Qed.

(** C5 (_packet_in_handler, lines 155-164), as amended: once a packet from
    [S] at port [P] of switch [K] was handled, and whatever packets from
    other sources were handled since, a packet for [S] at [K] is answered
    with the single action "output to port [P]" in every message the handler
    sends, provided the packet for [S] does not itself come from [S] at
    another port.  The answer is treated as unicast, with a reactive rule
    installed, unless [P] is the number of the flood port, which no ingress
    port has. *)
Theorem learned_port_answers first others last s :
  let K := id (pi_datapath first) in
  let S := src (pi_eth first) in
  let P := pi_in_port first in
  Forall (λ m, K = id (pi_datapath m) → src (pi_eth m) ≠ S) others →
  id (pi_datapath last) = K →
  dst (pi_eth last) = S →
  (src (pi_eth last) = S → pi_in_port last = P) →
  let s1 := (handle_packets (first :: others) s).1 in
  let r := _packet_in_handler last s1 in
  let out := sent (effects_since s1 r.1) in
  (handle_packets (first :: others) s).2 = Returned tt
  ∧ r.2 = Returned tt
  ∧ answers_with P out
  ∧ (P ≠ ofproto.OFPP_FLOOD →
     ∃ f, (pi_datapath last, FlowMod f) ∈ out
          ∧ fm_match f = {| in_port := Some (pi_in_port last);
                            eth_dst := Some S |}).
Proof.
  intros K S P Hothers HK Hdst Hsrc s1 r out.
  assert (Hfirst : mac_table (_packet_in_handler first s).1 K !! S = Some P).
  { rewrite packet_in_mac_table. rewrite decide_True by done.
    apply lookup_insert_eq. }
  destruct (handle_packets_keep_entry others _ K S P Hothers Hfirst)
    as [Hret Hkept].
  rewrite <- handle_packets_cons in Hret, Hkept. fold s1 in Hkept.
  split; [done|]. split; [apply packet_in_returns|].
  assert (Hlook : <[src (pi_eth last) := pi_in_port last]>
                    (mac_table s1 (id (pi_datapath last))) !! dst (pi_eth last)
                  = Some P).
  { rewrite HK, Hdst.
    destruct (decide (src (pi_eth last) = S)) as [Hs|Hs].
    - rewrite Hs, (Hsrc Hs). apply lookup_insert_eq.
    - by rewrite lookup_insert_ne. }
  unfold out, r.
  pose proof (packet_in_sent last s1) as H. cbv zeta in H. rewrite H. clear H.
  rewrite Hlook, Hdst. simpl. unfold answers_with.
  destruct (Z.eqb_spec P ofproto.OFPP_FLOOD) as [HP|HP].
  { split; [|done]. split; [done|]. by repeat constructor. }
  repeat match goal with |- context [if ?b then _ else _] => destruct b end;
    (split; [split; [done|]; by repeat constructor|]);
    intros _; eexists; (split; [apply list_elem_of_here|done]).
Qed.

Lemma learned_port_answers_witness :
  let first := packet 1 1 0xffffffff mac_a mac_b in
  let other := packet 1 3 0xffffffff "00:00:00:00:00:03" mac_b in
  let last := packet 1 2 0xffffffff mac_b mac_a in
  let s1 := (handle_packets [first; other] fresh).1 in
  answers_with 1 (sent (effects_since s1 (_packet_in_handler last s1).1)).
Proof.
  intros first other last s1.
  refine (proj1 (proj2 (proj2
    (learned_port_answers first [other] last fresh _ _ _ _)))).
  - repeat constructor. by vm_compute.
  - reflexivity.
  - reflexivity.
  - by vm_compute.
Defined.

(** C5 as first stated fails for a packet that [S] sends to itself from a
    second port: line 159 records the second port before line 161 looks
    [S] up, and the answer is the second port. *)
Lemma relearned_source_moves_port :
  let first := packet 1 1 0xffffffff mac_a mac_b in
  let last := packet 1 2 0xffffffff mac_a mac_a in
  let s1 := (handle_packets [first] fresh).1 in
  let out := sent (effects_since s1 (_packet_in_handler last s1).1) in
  id (pi_datapath last) = id (pi_datapath first)
  ∧ dst (pi_eth last) = src (pi_eth first)
  ∧ answers_with 2 out
  ∧ ¬ answers_with (pi_in_port first) out.
Proof.
  intros first last s1 out.
  assert (Hout : out =
    [({| id := 1 |},
      FlowMod {| fm_datapath := {| id := 1 |}; fm_buffer_id := None;
                 fm_priority := 1;
                 fm_match := {| in_port := Some 2; eth_dst := Some mac_a |};
                 fm_instructions :=
                   [ {| type_ := ofproto.OFPIT_APPLY_ACTIONS;
                        actions := [ {| port := 2; max_len := None |} ] |} ];
                 fm_cookie := Some 0 |});
     ({| id := 1 |},
      PacketOut {| po_datapath := {| id := 1 |}; po_buffer_id := 0xffffffff;
                   po_in_port := 2;
                   po_actions := [ {| port := 2; max_len := None |} ];
                   po_data := Some "frame" |})])
    by (vm_compute; reflexivity).
  rewrite Hout. split; [done|]. split; [done|]. split.
  - split; [done|]. by repeat constructor.
  - intros [_ Hall]. apply Forall_cons_1 in Hall as [Hhd _]. by vm_compute in Hhd.
Qed.

(** ** get_topology *)

Lemma bind_returned {A B} (m : M A) (k : A → M B) s s' a :
  m s = (s', Returned a) → bind m k s = k a s'.
Proof. unfold bind. by intros ->. Qed.

Lemma bind_raised {A B} (m : M A) (k : A → M B) s s' e :
  m s = (s', Raised e) → bind m k s = (s', Raised e).
Proof. unfold bind. by intros ->. Qed.

Lemma refresh_eval s :
  refresh s =
  ({| self := {| mac_to_port := mac_to_port (self s);
                 switches := switch_reply (world s) (requests (world s));
                 links := link_reply (world s) (S (requests (world s)));
                 hosts := host_reply (world s) (S (S (requests (world s))));
                 graph := graph (self s) |};
      world := {| trace := trace (world s); entropy := entropy (world s);
                  draws := draws (world s);
                  switch_reply := switch_reply (world s);
                  link_reply := link_reply (world s);
                  host_reply := host_reply (world s);
                  requests := S (S (S (requests (world s)))) |} |},
   Returned tt).
Proof. reflexivity. Qed.

Lemma refresh_first s : refresh s = (polled 0 s, Returned tt).
Proof.
  rewrite refresh_eval. unfold polled, polled_switches, polled_links,
    polled_hosts.
  cbn [replicate concat Nat.mul Nat.add]. by rewrite (right_id_L [] (++)).
Qed.

Lemma concat_replicate_snoc {A} (x : list A) k :
  concat (replicate k x) ++ x = x ++ concat (replicate k x).
Proof.
  induction k as [|k IH]; cbn [replicate concat].
  - by rewrite (right_id_L [] (++)).
  - by rewrite <- (assoc_L (++)), IH.
Qed.

Lemma loop_turn k s :
  (emit (Sleep poll_interval) ;;;
   print (PStr (CR +:+ "Loading....")) ;;;
   refresh) (polled k s) = (polled (S k) s, Returned tt).
Proof.
  unfold print.
  rewrite (bind_returned _ _ _ _ _ (emit_advance _ _)).
  rewrite (bind_returned _ _ _ _ _ (emit_advance _ _)).
  rewrite advance_advance, refresh_eval.
  unfold polled, polled_switches, polled_links, polled_hosts, advance.
  cbn [self world trace entropy draws switch_reply link_reply host_reply
       requests mac_to_port graph Nat.add].
  f_equal. f_equal.
  - f_equal; f_equal; lia.
  - f_equal; [|lia].
    rewrite <- (assoc_L (++)). f_equal.
    change (concat (replicate (S k) waiting))
      with (waiting ++ concat (replicate k waiting)).
    change ([Sleep poll_interval] ++ [Print (PStr (CR +:+ "Loading...."))])
      with waiting.
    apply (concat_replicate_snoc waiting).
Qed.

Lemma unsettled_polled k s :
  unsettled (polled k s) =
  (polled k s, Returned (negb (bool_decide (settled s k)))).
Proof.
  unfold unsettled, bind, get_self, ret, settled. cbn [self polled hosts switches].
  do 2 f_equal.
  by destruct (Nat.eqb_spec (length (polled_switches s k))
                            (length (polled_hosts s k)));
    [rewrite bool_decide_eq_true_2|rewrite bool_decide_eq_false_2].
Qed.

Lemma loop_step fuel k s :
  loop fuel (polled k s) =
  if bool_decide (settled s k) then Some (polled k s, Returned tt)
  else match fuel with
       | O => None
       | S fuel' => loop fuel' (polled (S k) s)
       end.
Proof.
  destruct fuel; cbn [while]; rewrite unsettled_polled;
    case_bool_decide; cbn [negb]; try done.
  by rewrite loop_turn.
Qed.

Lemma while_settles s fuel : ∀ k m,
  (∀ j, k ≤ j < m → ¬ settled s j)%nat → settled s m →
  (k ≤ m)%nat → (m - k ≤ fuel)%nat →
  loop fuel (polled k s) = Some (polled m s, Returned tt).
Proof.
  induction fuel as [|fuel IH]; intros k m Hbefore Hm Hkm Hfuel;
    rewrite loop_step.
  - assert (k = m) as -> by lia. by rewrite bool_decide_eq_true_2.
  - destruct (decide (k = m)) as [->|Hne].
    + by rewrite bool_decide_eq_true_2.
    + rewrite bool_decide_eq_false_2 by (apply Hbefore; lia).
      apply IH; [|done|lia|lia].
      intros j Hj. apply Hbefore. lia.
Qed.

Lemma while_waits s fuel : ∀ k,
  (∀ j, k ≤ j ≤ k + fuel → ¬ settled s j)%nat →
  loop fuel (polled k s) = None.
Proof.
  induction fuel as [|fuel IH]; intros k Hnot; rewrite loop_step;
    rewrite bool_decide_eq_false_2 by (apply Hnot; lia); [done|].
  apply IH. intros j Hj. apply Hnot. lia.
Qed.

Lemma first_settled s n :
  settled s n →
  ∃ m, (m ≤ n)%nat ∧ settled s m ∧ ∀ k, (k < m)%nat → ¬ settled s k.
Proof.
  assert (Hsearch : ∀ b,
    (∀ k, k < b → ¬ settled s k)%nat
    ∨ ∃ m, (m < b)%nat ∧ settled s m ∧ ∀ k, (k < m)%nat → ¬ settled s k).
  { induction b as [|b [IH|IH]].
    - left. lia.
    - destruct (decide (settled s b)) as [Hb|Hb].
      + right. exists b. split; [lia|]. done.
      + left. intros k Hk. destruct (decide (k = b)) as [->|]; [done|].
        apply IH. lia.
    - right. destruct IH as (m & Hm & Hrest). exists m. split; [lia|done]. }
  intros Hn. destruct (Hsearch n) as [Hnone|(m & Hm & Hrest)].
  - exists n. by split.
  - exists m. split; [lia|done].
Qed.

(** C6 (get_topology): as soon as one poll of the topology API reports as
    many switches as hosts, the wait is over.  With [m] the first such poll,
    [get_topology] returns for every fuel from [m] on, [self] then holds the
    switches, links and hosts of that poll, and the loop has slept [m] times,
    50 ms each; with less fuel than [m] it is still looping. *)
Theorem get_topology_converges s n :
  settled s n →
  ∃ m, (m ≤ n)%nat ∧ settled s m ∧ (∀ k, (k < m)%nat → ¬ settled s k)
  ∧ (∀ fuel, (m ≤ fuel)%nat →
       ∃ s', get_topology fuel s = Some (s', Returned tt)
           ∧ switches (self s') = polled_switches s m
           ∧ links (self s') = polled_links s m
           ∧ hosts (self s') = polled_hosts s m
           ∧ length (switches (self s')) = length (hosts (self s'))
           ∧ mac_to_port (self s') = mac_to_port (self s)
           ∧ effects_since s s' = concat (replicate m waiting))
  ∧ (∀ fuel, (fuel < m)%nat → get_topology fuel s = None)
  ∧ (poll_interval == 50 # 1000)%Q.
Proof.
  intros Hn. destruct (first_settled s n Hn) as (m & Hmn & Hm & Hfirst).
  exists m. split_and!; try done.
  - intros fuel Hfuel. exists (polled m s).
    unfold get_topology. rewrite refresh_first.
    rewrite (while_settles s fuel 0 m); try done; try lia.
    + split_and!; try done. by apply effects_since_trace.
    + intros j Hj. apply Hfirst. lia.
  - intros fuel Hfuel. unfold get_topology. rewrite refresh_first.
    apply while_waits. intros j Hj. apply Hfirst. lia.
Qed.

Lemma get_topology_converges_witness :
  settled booting 1
  ∧ ∃ s', get_topology 1 booting = Some (s', Returned tt)
        ∧ length (switches (self s')) = length (hosts (self s')).
Proof.
  assert (H1 : settled booting 1) by reflexivity.
  split; [exact H1|].
  destruct (get_topology_converges booting 1 H1)
    as (m & Hm & _ & _ & Hret & _).
  destruct (Hret 1%nat Hm) as (s' & Hs' & _ & _ & _ & Hlen & _).
  exists s'. split; [exact Hs'|exact Hlen].
Defined.

(** Whenever [get_topology] returns, it returns normally, from a poll that
    reported as many switches as hosts. *)
Lemma loop_result s fuel : ∀ k s1 o,
  loop fuel (polled k s) = Some (s1, o) →
  ∃ m, (k ≤ m)%nat ∧ settled s m ∧ s1 = polled m s ∧ o = Returned tt.
Proof.
  induction fuel as [|fuel IH]; intros k s1 o; rewrite loop_step;
    case_bool_decide as Hk; try done.
  - intros [= <- <-]. by exists k.
  - intros [= <- <-]. by exists k.
  - intros (m & ? & ? & ? & ?)%IH. exists m. split; [lia|done].
Qed.

Lemma get_topology_result fuel s s1 o :
  get_topology fuel s = Some (s1, o) →
  ∃ m, settled s m ∧ s1 = polled m s ∧ o = Returned tt.
Proof.
  unfold get_topology. rewrite refresh_first.
  intros (m & _ & ? & ? & ?)%loop_result. by exists m.
Qed.

(** ** The path-programming loop *)

Lemma index_opt_Some a l i :
  index_opt a l = Some i → l !! i = Some a.
Proof.
  revert i. induction l as [|y l IH]; intros i; simpl; [done|].
  case_decide as Hy.
  - intros [= <-]. by rewrite Hy.
  - destruct (index_opt a l) as [j|]; [|done]. intros [= <-]. by apply IH.
Qed.

Lemma index_opt_elem a l : a ∈ l ↔ is_Some (index_opt a l).
Proof.
  induction l as [|y l IH]; simpl.
  - split; [by intros ?%not_elem_of_nil|by intros [? ?]].
  - case_decide as Hy.
    + subst y. split; [by eexists|]. intros _. apply list_elem_of_here.
    + rewrite elem_of_cons, IH, fmap_is_Some. split; [|by right].
      by intros [->|].
Qed.

Lemma index_opt_None a l : a ∉ l → index_opt a l = None.
Proof.
  rewrite index_opt_elem. rewrite <- eq_None_not_Some. done.
Qed.

Lemma omap_ext_elem {A B} (f g : A → option B) (l : list A) :
  (∀ a, a ∈ l → f a = g a) → omap f l = omap g l.
Proof.
  induction l as [|x l IH]; intros Hfg; csimpl; [done|].
  rewrite (Hfg x) by apply list_elem_of_here.
  rewrite IH; [done|]. intros a Ha. apply Hfg. by apply list_elem_of_further.
Qed.

Lemma omap_fmap_S {A} (f : A → option nat) (l : list A) :
  omap (λ a, S <$> f a) l = S <$> omap f l.
Proof.
  induction l as [|x l IH]; csimpl; [done|].
  rewrite IH. by destruct (f x).
Qed.

Lemma index_opt_self l :
  NoDup l → omap (λ a, index_opt a l) l = seq 0 (length l).
Proof.
  induction 1 as [|y l Hy Hl IH]; csimpl; [done|].
  rewrite decide_True by done. csimpl. f_equal.
  rewrite <- fmap_S_seq, <- IH, <- omap_fmap_S.
  apply omap_ext_elem. intros a Ha.
  rewrite decide_False; [done|]. by intros ->.
Qed.

(** Every position of the path is visited once when the switches carry
    distinct ids that cover the path. *)
Lemma visits_permutation path ids :
  NoDup path → NoDup ids → (∀ a, a ∈ path → a ∈ ids) →
  omap (λ a, index_opt a path) ids ≡ₚ seq 0 (length path).
Proof.
  intros Hpath Hids Hcover.
  rewrite <- (index_opt_self path) by done.
  rewrite <- (filter_app_complement (.∈ path) ids) at 1.
  rewrite omap_app.
  rewrite (omap_ext_elem _ (λ _, None) (filter (λ x, x ∉ path) ids)).
  - assert (Hnone : ∀ l : list Z, omap (λ _ : Z, @None nat) l = [])
      by (induction l; done).
    rewrite Hnone, (right_id_L [] (++)).
    apply omap_Permutation, NoDup_Permutation; [by apply NoDup_filter|done|].
    intros a. rewrite list_elem_of_filter. split; [by intros [? _]|].
    intros Ha. split; [done|by apply Hcover].
  - intros a [Ha _]%list_elem_of_filter. by apply index_opt_None.
Qed.

Lemma int_src_id sw a s :
  src_id_of sw = Some a →
  ∃ n, int (d_dpid (to_dict sw)) s = (s, Returned n) ∧ a = n - 1.
Proof.
  unfold src_id_of, int. destruct (int_value _) as [n|]; [|done].
  intros [= <-]. by exists n.
Qed.

Lemma program_switch_unreadable g N sw s :
  src_id_of sw = None → program_switch g N sw s = (s, Raised ValueError).
Proof.
  unfold src_id_of, program_switch, bind, int.
  by destruct (int_value _).
Qed.

Lemma program_switch_skips g N sw s a :
  src_id_of sw = Some a → a ∉ switch_path g →
  program_switch g N sw s = (s, Returned tt).
Proof.
  intros Ha Hout. destruct (int_src_id sw a s Ha) as (n & Hn & ->).
  unfold program_switch, bind at 1. rewrite Hn.
  by rewrite bool_decide_eq_true_2.
Qed.

Lemma ingress_eval g a i s :
  ∃ e,
  (if bool_decide (i = O) then ret 1
   else
     row <- subscript (ports g) a ;;
     prev <- item (switch_path g) (i - 1)%nat ;;
     subscript row prev) s =
  match ingress_port g a i with
  | Some p => (s, Returned p)
  | None => (s, Raised e)
  end.
Proof.
  unfold ingress_port, port_towards. case_bool_decide as Hi.
  - exists KeyError. by rewrite decide_True.
  - rewrite decide_False by done.
    unfold bind, subscript, item, or_raise, ret, raise.
    destruct (ports g !! a) as [row|]; csimpl; [|by exists KeyError].
    destruct (switch_path g !! (i - 1)%nat) as [b|]; csimpl;
      [|by exists IndexError].
    exists KeyError. by destruct (row !! b).
Qed.

Lemma egress_eval g a i s :
  ∃ e,
  (if Z.of_nat i =? Z.of_nat (length (switch_path g)) - 1 then ret 1
   else
     row <- subscript (ports g) a ;;
     next <- item (switch_path g) (i + 1)%nat ;;
     subscript row next) s =
  match egress_port g a i with
  | Some p => (s, Returned p)
  | None => (s, Raised e)
  end.
Proof.
  unfold egress_port, port_towards.
  destruct (Z.eqb_spec (Z.of_nat i) (Z.of_nat (length (switch_path g)) - 1))
    as [Hi|Hi].
  - exists KeyError. rewrite decide_True by lia. done.
  - rewrite decide_False by lia.
    unfold bind, subscript, item, or_raise, ret, raise.
    destruct (ports g !! a) as [row|]; csimpl; [|by exists KeyError].
    destruct (switch_path g !! (i + 1)%nat) as [b|]; csimpl;
      [|by exists IndexError].
    exists KeyError. by destruct (row !! b).
Qed.

(** What [program_switch] sends for a switch of the path whose ports are
    known. *)
Lemma program_switch_installs g sw s a i inp outp :
  src_id_of sw = Some a → index_opt a (switch_path g) = Some i →
  ingress_port g a i = Some inp → egress_port g a i = Some outp →
  program_switch g (Z.of_nat (length (switch_path g))) sw s =
  (advance
     [Print (PInstalling (a + 1)); Print (PMatchAction inp outp);
      Send (sw_dp sw)
        (FlowMod (path_rule (sw_dp sw) inp outp (next_cookie s)));
      Print (PMatchAction outp inp);
      Send (sw_dp sw)
        (FlowMod (path_rule (sw_dp sw) outp inp
                    (next_cookie (advance [] 1 s))))] 2 s,
   Returned tt).
Proof.
  intros Ha Hi Hin Hout. destruct (int_src_id sw a s Ha) as (n & Hn & ->).
  unfold program_switch. unfold bind at 1. rewrite Hn.
  rewrite bool_decide_eq_false_2
    by (intros Hnot; apply Hnot, index_opt_elem; by eexists).
  unfold bind at 1, index, or_raise. rewrite Hi. unfold ret at 1.
  destruct (ingress_eval g (n - 1) i s) as [e1 Hin'].
  destruct (egress_eval g (n - 1) i s) as [e2 Hout'].
  rewrite Hin in Hin'. rewrite Hout in Hout'.
  unfold bind at 1. rewrite Hin'.
  unfold bind at 1. rewrite Hout'.
  unfold bind, print. rewrite !emit_advance.
  rewrite add_flow_cookie by done. rewrite emit_advance.
  rewrite add_flow_cookie by done.
  rewrite !advance_advance. done.
Qed.

(** A switch of the path with a port missing in [ports]: the subscript
    raises before anything is sent. *)
Lemma program_switch_portless g sw s a i :
  src_id_of sw = Some a → index_opt a (switch_path g) = Some i →
  ingress_port g a i = None ∨ egress_port g a i = None →
  ∃ e, program_switch g (Z.of_nat (length (switch_path g))) sw s
       = (s, Raised e).
Proof.
  intros Ha Hi Hnone. destruct (int_src_id sw a s Ha) as (n & Hn & ->).
  unfold program_switch. unfold bind at 1. rewrite Hn.
  rewrite bool_decide_eq_false_2
    by (intros Hnot; apply Hnot, index_opt_elem; by eexists).
  unfold bind at 1, index, or_raise. rewrite Hi. unfold ret at 1.
  destruct (ingress_eval g (n - 1) i s) as [e1 Hin'].
  destruct (egress_eval g (n - 1) i s) as [e2 Hout'].
  unfold bind at 1. rewrite Hin'.
  destruct (ingress_port g (n - 1) i) as [inp|]; [|by eexists].
  unfold bind at 1. rewrite Hout'.
  destruct (egress_port g (n - 1) i) as [outp|]; [|by eexists].
  by destruct Hnone.
Qed.

Lemma pair_messages_cons r rules :
  pair_messages (r :: rules) =
  (fm_datapath r.1.2, FlowMod r.1.2) :: (fm_datapath r.2, FlowMod r.2)
  :: pair_messages rules.
Proof. reflexivity. Qed.

Lemma pair_messages_length rules :
  length (pair_messages rules) = (2 * length rules)%nat.
Proof.
  induction rules as [|r rules IH]; [done|].
  rewrite pair_messages_cons. simpl. rewrite IH. lia.
Qed.

(** The loop of lines 229-262 over any part [sws'] of the switches: what it
    sends is a list of rule pairs, whether it ends or raises; when every id
    can be read and the ports of the path are there, it ends and visits the
    positions of the ids in order. *)
Lemma loop_sends_pairs g sws sws' :
  (∀ sw, sw ∈ sws' → sw ∈ sws) →
  ∀ s, let r := for_each sws'
                  (program_switch g (Z.of_nat (length (switch_path g)))) s in
  ∃ l rules,
    self r.1 = self s
    ∧ trace (world r.1) = trace (world s) ++ l
    ∧ sent l = pair_messages rules
    ∧ Forall (λ r, path_pair g sws r.1.1 r.1.2 r.2) rules
    ∧ ∀ ids,
        Forall2 (λ sw a, src_id_of sw = Some a) sws' ids →
        (∀ a i, a ∈ ids → index_opt a (switch_path g) = Some i →
                is_Some (ingress_port g a i) ∧ is_Some (egress_port g a i)) →
        r.2 = Returned tt
        ∧ rules.*1.*1 = omap (λ a, index_opt a (switch_path g)) ids.
Proof.
  induction sws' as [|sw rest IH]; intros Hsub s r.
  { exists [], []. unfold r; simpl. rewrite (right_id_L [] (++)).
    split_and!; try done. intros ids Hids _. by inversion Hids. }
  assert (Hrest : ∀ sw', sw' ∈ rest → sw' ∈ sws)
    by (intros sw' ?; by apply Hsub, list_elem_of_further).
  specialize (IH Hrest).
  unfold r. clear r. cbn [for_each].
  destruct (src_id_of sw) as [a|] eqn:Ha.
  2:{ rewrite (bind_raised _ _ _ _ _ (program_switch_unreadable g _ sw s Ha)).
      exists [], []. cbn [fst snd]. rewrite (right_id_L [] (++)).
      split_and!; try done. intros ids Hids _.
      inversion Hids; congruence. }
  destruct (index_opt a (switch_path g)) as [i|] eqn:Hi.
  2:{ assert (Hout : a ∉ switch_path g)
        by (rewrite index_opt_elem, Hi; by intros [? ?]).
      rewrite (bind_returned _ _ _ _ _ (program_switch_skips g _ sw s a Ha Hout)).
      destruct (IH s) as (l & rules & Hself & Htrace & Hsent & Hpairs & Hok).
      exists l, rules. split_and!; try done.
      intros ids Hids Hports. inversion Hids as [|? a' ? ids' Ha' Hids']; subst.
      assert (a' = a) as -> by congruence.
      csimpl. rewrite Hi. apply Hok; [done|].
      intros b j Hb. apply Hports. by apply list_elem_of_further. }
  destruct (ingress_port g a i) as [inp|] eqn:Hin;
    [destruct (egress_port g a i) as [outp|] eqn:Hout|].
  - rewrite (bind_returned _ _ _ _ _
               (program_switch_installs g sw s a i inp outp Ha Hi Hin Hout)).
    set (s1 := advance _ 2 s).
    destruct (IH s1) as (l & rules & Hself & Htrace & Hsent & Hpairs & Hok).
    eexists (_ ++ l),
      ((i, path_rule (sw_dp sw) inp outp (next_cookie s),
           path_rule (sw_dp sw) outp inp (next_cookie (advance [] 1 s)))
       :: rules).
    split_and!.
    + by rewrite Hself.
    + rewrite Htrace. unfold s1. rewrite advance_trace.
      by rewrite (assoc_L (++)).
    + rewrite sent_app, Hsent. done.
    + constructor; [|done]. cbn [fst snd].
      exists sw, a, inp, outp, (next_cookie s), (next_cookie (advance [] 1 s)).
      split_and!; try done; try apply next_cookie_range.
      * apply Hsub, list_elem_of_here.
      * by apply index_opt_Some.
    + intros ids Hids Hports.
      inversion Hids as [|? a' ? ids' Ha' Hids']; subst.
      assert (a' = a) as -> by congruence.
      csimpl. rewrite Hi. csimpl.
      destruct (Hok ids') as [-> ->]; [done| |done].
      intros b j Hb. apply Hports. by apply list_elem_of_further.
  - destruct (program_switch_portless g sw s a i Ha Hi (or_intror Hout))
      as [e He].
    rewrite (bind_raised _ _ _ _ _ He).
    exists [], []. cbn [fst snd]. rewrite (right_id_L [] (++)).
    split_and!; try done.
    intros ids Hids Hports. inversion Hids as [|? a' ? ids' Ha' Hids']; subst.
    assert (a' = a) as -> by congruence.
    destruct (Hports a i) as [_ [? Hsome]]; [apply list_elem_of_here|done|].
    congruence.
  - destruct (program_switch_portless g sw s a i Ha Hi (or_introl Hin))
      as [e He].
    rewrite (bind_raised _ _ _ _ _ He).
    exists [], []. cbn [fst snd]. rewrite (right_id_L [] (++)).
    split_and!; try done.
    intros ids Hids Hports. inversion Hids as [|? a' ? ids' Ha' Hids']; subst.
    assert (a' = a) as -> by congruence.
    destruct (Hports a i) as [[? Hsome] _]; [apply list_elem_of_here|done|].
    congruence.
Qed.

Lemma install_flows_eval g s :
  install_flows g s =
  for_each (switches (self s))
    (program_switch g (Z.of_nat (length (switch_path g))))
    (advance [Print (PStr (LF +:+ "Flows:"))] 0 s).
Proof. reflexivity. Qed.

(** What [install_flows] sends is a list of rule pairs of the path. *)
Lemma install_flows_sends_pairs g s :
  ∃ rules,
    self (install_flows g s).1 = self s
    ∧ sent (effects_since s (install_flows g s).1) = pair_messages rules
    ∧ Forall (λ r, path_pair g (switches (self s)) r.1.1 r.1.2 r.2) rules.
Proof.
  rewrite install_flows_eval.
  destruct (loop_sends_pairs g (switches (self s)) (switches (self s))
              (λ _ H, H) (advance [Print (PStr (LF +:+ "Flows:"))] 0 s))
    as (l & rules & Hself & Htrace & Hsent & Hpairs & _).
  exists rules. split_and!; try done.
  rewrite (effects_since_trace _ _ ([Print (PStr (LF +:+ "Flows:"))] ++ l)).
  - by rewrite sent_app.
  - rewrite Htrace, advance_trace. by rewrite (assoc_L (++)).
Qed.

Lemma path_ports_known g a i :
  (∀ j x y, switch_path g !! j = Some x → switch_path g !! S j = Some y →
            is_Some (ports g !! x ≫= (.!! y))
            ∧ is_Some (ports g !! y ≫= (.!! x))) →
  switch_path g !! i = Some a →
  is_Some (ingress_port g a i) ∧ is_Some (egress_port g a i).
Proof.
  intros Hports Hi. pose proof (lookup_lt_Some _ _ _ Hi) as Hlt.
  unfold ingress_port, egress_port, port_towards. split.
  - case_decide as H0; [by eexists|].
    destruct (lookup_lt_is_Some_2 (switch_path g) (i - 1)%nat) as [b Hb];
      [lia|].
    destruct (Hports (i - 1)%nat b a) as [_ [p Hp]]; [done| |].
    { by replace (S (i - 1)) with i by lia. }
    destruct (ports g !! a) as [row|]; [|done]. simpl in *.
    rewrite Hb. simpl. by exists p.
  - case_decide as HN; [by eexists|].
    destruct (lookup_lt_is_Some_2 (switch_path g) (i + 1)%nat) as [b Hb];
      [lia|].
    destruct (Hports i a b) as [[p Hp] _]; [done| |].
    { by replace (S i) with (i + 1)%nat by lia. }
    destruct (ports g !! a) as [row|]; [|done]. simpl in *.
    rewrite Hb. simpl. by exists p.
Qed.

(** Where line 231 can read every datapath id: for a path without repeated
    switch, whose ids are ids of the switches at hand and whose hops have
    their ports in [ports], the loop hands [send_msg] exactly 2 x N
    flow-mods, N the length of the path: a forward and a reverse rule for
    every position of the path, each position once, the reverse rule
    matching what the forward rule outputs to and outputting to what it
    matches.  [ids] are the numbers [int(data["dpid"]) - 1] of the switches,
    all of them readable and distinct. *)
Lemma path_programming_installs_pairs g s ids :
  let path := switch_path g in
  let sws := switches (self s) in
  NoDup path →
  Forall2 (λ sw a, src_id_of sw = Some a) sws ids →
  NoDup ids →
  (∀ a, a ∈ path → a ∈ ids) →
  (∀ j x y, path !! j = Some x → path !! S j = Some y →
            is_Some (ports g !! x ≫= (.!! y))
            ∧ is_Some (ports g !! y ≫= (.!! x))) →
  let r := install_flows g s in
  r.2 = Returned tt
  ∧ self r.1 = self s
  ∧ length (sent (effects_since s r.1)) = (2 * length path)%nat
  ∧ ∃ rules,
      sent (effects_since s r.1) = pair_messages rules
      ∧ rules.*1.*1 ≡ₚ seq 0 (length path)
      ∧ Forall (λ r, path_pair g sws r.1.1 r.1.2 r.2) rules.
Proof.
  cbv zeta. intros Hpath Hids Hnodup Hcover Hports.
  rewrite install_flows_eval.
  destruct (loop_sends_pairs g (switches (self s)) (switches (self s))
              (λ _ H, H) (advance [Print (PStr (LF +:+ "Flows:"))] 0 s))
    as (l & rules & Hself & Htrace & Hsent & Hpairs & Hok).
  destruct (Hok ids) as [Hret Hvisits]; [done| |].
  { intros a i _ Hi. apply path_ports_known; [done|].
    by apply index_opt_Some. }
  assert (Hperm : rules.*1.*1 ≡ₚ seq 0 (length (switch_path g))).
  { rewrite Hvisits. by apply visits_permutation. }
  rewrite (effects_since_trace _ _ ([Print (PStr (LF +:+ "Flows:"))] ++ l))
    by (rewrite Htrace, advance_trace; by rewrite (assoc_L (++))).
  rewrite sent_app, Hsent. change (sent [Print _]) with (@nil (Datapath * Msg)).
  rewrite (left_id_L [] (++)).
  split_and!; try done.
  - rewrite pair_messages_length.
    apply Permutation_length in Hperm.
    rewrite !length_fmap, length_seq in Hperm. by rewrite Hperm.
  - by exists rules.
Qed.

Lemma path_programming_installs_pairs_witness :
  NoDup (switch_path line_graph)
  ∧ (install_flows line_graph line).2 = Returned tt
  ∧ length (sent (effects_since line (install_flows line_graph line).1))
    = 6%nat.
Proof.
  assert (Hpath : NoDup (switch_path line_graph))
    by decide_by_evaluation.
  split; [exact Hpath|].
  assert (Hids : Forall2 (λ sw a, src_id_of sw = Some a)
                   (switches (self line)) [1; 0; 2; 6])
    by (repeat constructor).
  assert (Hnodup : NoDup [1; 0; 2; 6])
    by decide_by_evaluation.
  assert (Hcover : ∀ a, a ∈ switch_path line_graph → a ∈ [1; 0; 2; 6]).
  { intros a Ha. apply list_elem_of_In in Ha. simpl in Ha.
    destruct Ha as [<-|[<-|[<-|[]]]]; decide_by_evaluation. }
  assert (Hports : ∀ j x y,
    switch_path line_graph !! j = Some x →
    switch_path line_graph !! S j = Some y →
    is_Some (ports line_graph !! x ≫= (.!! y))
    ∧ is_Some (ports line_graph !! y ≫= (.!! x))).
  { intros [|[|[|j]]] x y Hx Hy; simpl in Hx, Hy; try discriminate;
      injection Hx as <-; injection Hy as <-;
      split; vm_compute; eexists; reflexivity. }
  pose proof (path_programming_installs_pairs line_graph line [1; 0; 2; 6]
                Hpath Hids Hnodup Hcover Hports) as (Hret & _ & Hlen & _).
  split; [exact Hret|exact Hlen].
Defined.

(** ** Who gets path rules, and at which priority *)

Lemma pair_messages_elem dp m rules :
  (dp, m) ∈ pair_messages rules →
  ∃ r, r ∈ rules
       ∧ ((dp, m) = (fm_datapath r.1.2, FlowMod r.1.2)
          ∨ (dp, m) = (fm_datapath r.2, FlowMod r.2)).
Proof.
  unfold pair_messages. rewrite list_elem_of_bind.
  intros (r & Hin & Hr). exists r. split; [done|].
  rewrite !elem_of_cons in Hin. destruct Hin as [?|[?|?%elem_of_nil]]; auto.
  done.
Qed.

(** Every message of the loop is a rule of priority 200 for a switch of the
    path. *)
Lemma install_flows_messages g s dp m :
  (dp, m) ∈ sent (effects_since s (install_flows g s).1) →
  ∃ sw a f, sw ∈ switches (self s) ∧ src_id_of sw = Some a
            ∧ a ∈ switch_path g ∧ dp = sw_dp sw
            ∧ m = FlowMod f ∧ fm_priority f = 200.
Proof.
  destruct (install_flows_sends_pairs g s) as (rules & _ & -> & Hpairs).
  intros (r & Hr & Hm)%pair_messages_elem.
  rewrite Forall_forall in Hpairs.
  destruct (Hpairs r Hr)
    as (sw & a & inp & outp & cf & cb & Hsw & Hi & Ha & _ & _ & _ & _ & Hf & Hb).
  assert (a ∈ switch_path g) by (apply list_elem_of_lookup; by exists r.1.1).
  destruct Hm as [[= -> ->]|[= -> ->]].
  - exists sw, a, r.1.2. rewrite Hf. by split_and!.
  - exists sw, a, r.2. rewrite Hb. by split_and!.
Qed.

Lemma src_id_of_datapath sw sw' :
  sw_dp sw = sw_dp sw' → src_id_of sw = src_id_of sw'.
Proof. unfold src_id_of, to_dict. cbn [d_dpid]. by intros ->. Qed.

(** Where line 231 can read the datapath id: a switch whose id is not in
    [switch_path] is passed over.  The body of the loop returns at once,
    with no exception, no message and no change, and nothing that the whole
    loop sends goes to that switch. *)
Lemma absent_switch_is_skipped g s sw a :
  src_id_of sw = Some a → a ∉ switch_path g →
  program_switch g (Z.of_nat (length (switch_path g))) sw s = (s, Returned tt)
  ∧ ∀ m, (sw_dp sw, m) ∉ sent (effects_since s (install_flows g s).1).
Proof.
  intros Ha Hout. split; [by apply (program_switch_skips g _ sw s a)|].
  intros m (sw' & a' & f & _ & Ha' & Hin & Hdp & _)%install_flows_messages.
  rewrite (src_id_of_datapath sw sw' Hdp), Ha' in Ha. by injection Ha as <-.
Qed.

Lemma absent_switch_is_skipped_witness :
  src_id_of (line_switch 7) = Some 6
  ∧ (6 ∉ switch_path line_graph)
  ∧ ∀ m, ({| id := 7 |}, m)
         ∉ sent (effects_since line (install_flows line_graph line).1).
Proof.
  assert (Ha : src_id_of (line_switch 7) = Some 6) by reflexivity.
  assert (Hout : 6 ∉ switch_path line_graph).
  { intros Hin. apply list_elem_of_In in Hin. simpl in Hin.
    destruct Hin as [?|[?|[?|[]]]]; discriminate. }
  split; [exact Ha|]. split; [exact Hout|].
  exact (proj2 (absent_switch_is_skipped line_graph line (line_switch 7) 6
                  Ha Hout)).
Defined.

(** C4 (lines 252-262 against lines 169-177): a flow-mod of the
    path-programming loop has priority 200 and a flow-mod of
    [_packet_in_handler] has priority 1, so every path rule outranks every
    reactive rule, on whichever switch. *)
Theorem path_rules_outrank_reactive_rules g s dp f msg s' dp' f' :
  (dp, FlowMod f) ∈ sent (effects_since s (install_flows g s).1) →
  (dp', FlowMod f')
    ∈ sent (effects_since s' (_packet_in_handler msg s').1) →
  fm_priority f = 200 ∧ fm_priority f' = 1
  ∧ fm_priority f' < fm_priority f.
Proof.
  intros (sw & a & f0 & _ & _ & _ & _ & [= <-] & Hf)%install_flows_messages
    Hreactive.
  assert (Hf' : fm_priority f' = 1); [|rewrite Hf, Hf'; lia].
  pose proof (packet_in_sent msg s') as H. cbv zeta in H.
  rewrite H in Hreactive. clear H.
  repeat match type of Hreactive with
         | context [if ?b then _ else _] => destruct b
         end;
    rewrite ?elem_of_cons, elem_of_nil in Hreactive;
    destruct Hreactive as [Hm|Hm]; try done;
    try (destruct Hm as [Hm|Hm]; try done);
    by injection Hm as _ ->.
Qed.

Lemma path_rules_outrank_reactive_rules_witness :
  let s' := (_packet_in_handler (packet 1 1 0xffffffff mac_a mac_b) fresh).1 in
  let reply := packet 1 2 7 mac_b mac_a in
  ∃ dp f dp' f',
    (dp, FlowMod f) ∈ sent (effects_since line (install_flows line_graph line).1)
    ∧ (dp', FlowMod f')
        ∈ sent (effects_since s' (_packet_in_handler reply s').1)
    ∧ fm_priority f' < fm_priority f.
Proof.
  intros s' reply.
  exists {| id := 2 |}, (path_rule {| id := 2 |} 2 3 0),
         {| id := 1 |},
         {| fm_datapath := {| id := 1 |}; fm_buffer_id := Some 7;
            fm_priority := 1;
            fm_match := {| in_port := Some 2; eth_dst := Some mac_a |};
            fm_instructions :=
              [ {| type_ := ofproto.OFPIT_APPLY_ACTIONS;
                   actions := [ {| port := 1; max_len := None |} ] |} ];
            fm_cookie := None |}.
  assert (H1 : ({| id := 2 |}, FlowMod (path_rule {| id := 2 |} 2 3 0))
               ∈ sent (effects_since line (install_flows line_graph line).1))
    by (vm_compute; apply list_elem_of_here).
  assert (H2 : ({| id := 1 |},
                FlowMod
                  {| fm_datapath := {| id := 1 |}; fm_buffer_id := Some 7;
                     fm_priority := 1;
                     fm_match := {| in_port := Some 2;
                                    eth_dst := Some mac_a |};
                     fm_instructions :=
                       [ {| type_ := ofproto.OFPIT_APPLY_ACTIONS;
                            actions := [ {| port := 1; max_len := None |} ] |} ];
                     fm_cookie := None |})
               ∈ sent (effects_since s' (_packet_in_handler reply s').1))
    by (vm_compute; apply list_elem_of_here).
  split; [exact H1|]. split; [exact H2|].
  exact (proj2 (proj2 (path_rules_outrank_reactive_rules _ _ _ _ _ _ _ _ H1 H2))).
Defined.

(** ** handler_switch_event as a whole *)

Lemma for_each_print {A} (f : A → Printed) (l : list A) s :
  for_each l (λ x, print (f x)) s = (advance (Print ∘ f <$> l) 0 s, Returned tt).
Proof.
  revert s. induction l as [|x l IH]; intros s; cbn [for_each].
  - unfold ret. by rewrite advance_nil.
  - unfold print at 1.
    rewrite (bind_returned _ _ _ _ _ (emit_advance _ _)), IH.
    by rewrite advance_advance.
Qed.

Lemma sent_waiting m : sent (concat (replicate m waiting)) = [].
Proof.
  induction m as [|m IH]; [done|]. cbn [replicate concat].
  rewrite sent_app. apply IH.
Qed.

Lemma sent_prints {A} (f : A → Printed) (l : list A) :
  sent (Print ∘ f <$> l) = [].
Proof. induction l as [|x l IH]; [done|]. apply IH. Qed.

(** When the handler returns, [get_topology] has returned, the topology was
    printed, [self.graph] holds the graph of that topology, and the rest is
    the loop of lines 227-262 on it.  Nothing was sent before the loop. *)
Lemma handler_switch_event_runs_loop new_Graph fuel s s' o :
  handler_switch_event new_Graph fuel s = Some (s', o) →
  ∃ s1,
    get_topology fuel (advance [Print (PStrEnd "New Switch" "")] 0 s)
      = Some (s1, Returned tt)
    ∧ let g := new_Graph (switches (self s1)) (hosts (self s1))
                 (links (self s1)) in
      let s2 := with_graph g (advance (listing s1) 0 s1) in
      install_flows g s2 = (s', o)
      ∧ sent (effects_since s s2) = []
      ∧ mac_to_port (self s2) = mac_to_port (self s).
Proof.
  unfold handler_switch_event, print at 1. rewrite emit_advance.
  destruct (get_topology fuel _) as [[s1 o1]|] eqn:Htopo; [|done].
  destruct (get_topology_result _ _ _ _ Htopo) as (m & Hm & Hs1 & ->).
  unfold and_then. intros [= Hrun]. exists s1. split; [done|].
  cbv zeta.
  assert (Hlist :
    (print (PStr "-------------------------------------------------") ;;;
     print (PStr (LF +:+ "All Links:")) ;;;
     (a <- get_self ;; for_each (links a) (λ l, print (PLink l))) ;;;
     print (PStr (LF +:+ "All Switches:")) ;;;
     (a <- get_self ;; for_each (switches a) (λ s, print (PSwitch s))) ;;;
     print (PStr (LF +:+ "All Hosts:")) ;;;
     (a <- get_self ;; for_each (hosts a) (λ h, print (PHost h))) ;;;
     (a <- get_self ;;
      set_graph (new_Graph (switches a) (hosts a) (links a))) ;;;
     a <- get_self ;;
     match graph a with
     | Some g => install_flows g
     | None => ret tt
     end) s1
    = install_flows
        (new_Graph (switches (self s1)) (hosts (self s1)) (links (self s1)))
        (with_graph
           (new_Graph (switches (self s1)) (hosts (self s1)) (links (self s1)))
           (advance (listing s1) 0 s1))).
  { unfold print.
    rewrite (bind_returned _ _ _ _ _ (emit_advance _ _)).
    rewrite (bind_returned _ _ _ _ _ (emit_advance _ _)).
    rewrite (bind_returned _ _ (advance _ 0 (advance _ 0 s1))
               (advance (Print ∘ PLink <$> links (self s1)) 0
                  (advance _ 0 (advance _ 0 s1))) tt)
      by apply (for_each_print PLink).
    rewrite (bind_returned _ _ _ _ _ (emit_advance _ _)).
    rewrite (bind_returned _ _ (advance _ 0 (advance _ 0 (advance _ 0 (advance _ 0 s1))))
               (advance (Print ∘ PSwitch <$> switches (self s1)) 0
                  (advance _ 0 (advance _ 0 (advance _ 0 (advance _ 0 s1))))) tt)
      by apply (for_each_print PSwitch).
    rewrite (bind_returned _ _ _ _ _ (emit_advance _ _)).
    rewrite (bind_returned _ _
               (advance _ 0 (advance _ 0 (advance _ 0 (advance _ 0
                  (advance _ 0 (advance _ 0 s1))))))
               (advance (Print ∘ PHost <$> hosts (self s1)) 0
                  (advance _ 0 (advance _ 0 (advance _ 0 (advance _ 0
                     (advance _ 0 (advance _ 0 s1))))))) tt)
      by apply (for_each_print PHost).
    rewrite !advance_advance.
    unfold bind, get_self, set_graph, bind, get_self, set_self.
    cbn [self graph fst snd]. reflexivity. }
  rewrite Hlist in Hrun. split; [done|]. split.
  - rewrite (effects_since_trace _ _
               ([Print (PStrEnd "New Switch" "")] ++ concat (replicate m waiting)
                ++ listing s1)).
    + rewrite !sent_app. unfold listing. rewrite !sent_app.
      rewrite sent_waiting, !sent_prints. reflexivity.
    + cbn [with_graph world advance trace]. rewrite Hs1.
      cbn [polled world trace advance]. by rewrite <- !(assoc_L (++)).
  - rewrite Hs1. reflexivity.
Qed.

(** ** The scenarios of the specification *)

(** Three switches in a line, one host each: switch 1 forwards between its
    host port and the port to switch 2, switch 2 between its two neighbours,
    switch 3 between the port to switch 2 and its host port.  The rules go
    out in the order of [self.switches]; the fourth switch gets none. *)
Example line_scenario :
  map (λ dm, (id dm.1, fm_match <$> (match dm.2 with
                                      | FlowMod f => Some f
                                      | PacketOut _ => None
                                      end), msg_actions dm.2))
      (sent (effects_since line (install_flows line_graph line).1)) =
  let rule dpid inp outp :=
    (dpid, Some {| in_port := Some inp; eth_dst := None |},
     [ {| port := outp; max_len := None |} ]) in
  [rule 2%N 2 3; rule 2%N 3 2;
   rule 1%N 1 2; rule 1%N 2 1;
   rule 3%N 2 1; rule 3%N 1 2].
Proof. vm_compute. reflexivity. Qed.

(** A datapath id is printed in hexadecimal by [to_dict] and read in decimal
    by [int]: from id 10 on, the first id with a letter, line 231 raises
    [ValueError] and the loop ends there. *)
Example dpid_ten_unreadable g s :
  d_dpid (to_dict (line_switch 10)) = "000000000000000a"
  ∧ program_switch g (Z.of_nat (length (switch_path g))) (line_switch 10) s
    = (s, Raised ValueError).
Proof. split; [reflexivity|]. by apply program_switch_unreadable. Qed.

(** An unknown destination at a switch with an empty table: the packet is
    flooded and no rule is installed. *)
Example first_packet_scenario :
  sent (effects_since fresh
          (_packet_in_handler (packet 1 1 0xffffffff mac_a mac_b) fresh).1) =
  [({| id := 1 |},
    PacketOut {| po_datapath := {| id := 1 |}; po_buffer_id := 0xffffffff;
                 po_in_port := 1;
                 po_actions := [ {| port := ofproto.OFPP_FLOOD;
                                    max_len := None |} ];
                 po_data := Some "frame" |})].
Proof. vm_compute. reflexivity. Qed.

(** * More of the handlers *)

(** ** _packet_in_handler: what it learns and what it leaves alone *)

Lemma packet_in_state msg s :
  ∃ l k, (_packet_in_handler msg s).1 = advance l k (learned msg s)
         ∧ (k ≤ 1)%nat
         ∧ (_packet_in_handler msg s).2 = Returned tt.
Proof.
  pose proof (packet_in_eval msg s) as H. cbv zeta in H. rewrite H. clear H.
  change (learned msg (advance (truncation_log msg) 0 s))
    with (advance (truncation_log msg) 0 (learned msg s)).
  destruct (_ =? ofproto.OFPP_FLOOD).
  { cbn [fst snd]. rewrite advance_advance. eexists _, _. split; [done|].
    split; [lia|done]. }
  destruct (_ =? ofproto.OFP_NO_BUFFER).
  { rewrite add_flow_cookie by done. cbn [fst snd].
    rewrite !advance_advance. eexists _, _. split; [done|].
    split; [lia|done]. }
  match goal with |- context [add_flow ?d ?p ?m ?a ?b ?s] =>
    destruct (add_flow_advance d p m a b s)
      as (f & k & Heq & _ & _ & _ & _ & Ht & Hf)
  end.
  assert (Heq' := Heq).
  destruct (Z.eqb_spec (pi_buffer_id msg) 0) as [Hz|Hz].
  - rewrite Hz in *. rewrite add_flow_cookie in Heq' |- * by done.
    cbn [fst snd]. rewrite advance_advance. eexists _, _. split; [done|].
    split; [lia|done].
  - rewrite add_flow_buffered by done. cbn [fst snd].
    rewrite advance_advance. eexists _, _. split; [done|].
    split; [lia|done].
Qed.

(** X1: the handler changes one entry of [mac_to_port] and no other: in the
    table of the packet's switch the source now maps to the ingress port,
    and every other address, at this or any other switch, is looked up as
    before. *)
Theorem packet_in_learns_one_entry msg s :
  let s' := (_packet_in_handler msg s).1 in
  mac_table s' (id (pi_datapath msg)) !! src (pi_eth msg)
    = Some (pi_in_port msg)
  ∧ ∀ dpid mac,
      dpid ≠ id (pi_datapath msg) ∨ mac ≠ src (pi_eth msg) →
      mac_table s' dpid !! mac = mac_table s dpid !! mac.
Proof.
  intros s'. unfold s'. split.
  - rewrite packet_in_mac_table, decide_True by done. apply lookup_insert_eq.
  - intros dpid mac Hother. rewrite packet_in_mac_table.
    case_decide as Hd; [|done].
    destruct Hother as [?|Hmac]; [done|]. by rewrite lookup_insert_ne.
Qed.

(** X2: a packet whose source is already recorded at its ingress port
    leaves [self] exactly as it was: the observation is idempotent. *)
Theorem packet_in_known_source_keeps_self msg s :
  mac_table s (id (pi_datapath msg)) !! src (pi_eth msg)
    = Some (pi_in_port msg) →
  self (_packet_in_handler msg s).1 = self s.
Proof.
  intros Hknown. rewrite (proj2 (packet_in_returns msg s)).
  unfold learned. cbn [self].
  assert (Htable : mac_to_port (self s) !! id (pi_datapath msg)
                   = Some (mac_table s (id (pi_datapath msg)))).
  { unfold mac_table in *.
    destruct (mac_to_port (self s) !! id (pi_datapath msg)); [done|].
    cbn [default from_option] in Hknown. by rewrite lookup_empty in Hknown. }
  rewrite (insert_id (mac_table s (id (pi_datapath msg)))) by done.
  rewrite insert_id by done. by destruct (self s).
Qed.

Lemma packet_in_known_source_keeps_self_witness :
  let msg := packet 1 1 0xffffffff mac_a mac_b in
  let s := (_packet_in_handler msg fresh).1 in
  mac_table s 1%N !! mac_a = Some 1
  ∧ self (_packet_in_handler msg s).1 = self s.
Proof.
  intros msg s.
  assert (H : mac_table s (id (pi_datapath msg)) !! src (pi_eth msg)
              = Some (pi_in_port msg)) by (vm_compute; reflexivity).
  split; [exact H|].
  exact (packet_in_known_source_keeps_self msg s H).
Defined.

(** X3: the MAC tables are never pruned: an address that a switch knows is
    still known to it after any further packets, at any switch. *)
Theorem mac_table_never_forgets l s dpid mac :
  is_Some (mac_table s dpid !! mac) →
  (handle_packets l s).2 = Returned tt
  ∧ is_Some (mac_table (handle_packets l s).1 dpid !! mac).
Proof.
  revert s. induction l as [|msg l IH]; intros s Hin; [done|].
  rewrite handle_packets_cons. apply IH.
  rewrite packet_in_mac_table. case_decide; [|done].
  destruct (decide (src (pi_eth msg) = mac)) as [<-|Hne].
  - rewrite lookup_insert_eq. by eexists.
  - by rewrite lookup_insert_ne.
Qed.

Lemma mac_table_never_forgets_witness :
  let s := (_packet_in_handler (packet 1 1 0xffffffff mac_a mac_b) fresh).1 in
  let l := [packet 1 2 0xffffffff mac_b mac_a; packet 2 1 7 mac_a mac_b] in
  is_Some (mac_table s 1%N !! mac_a)
  ∧ is_Some (mac_table (handle_packets l s).1 1%N !! mac_a).
Proof.
  intros s l.
  assert (H : is_Some (mac_table s 1%N !! mac_a))
    by (exists 1; vm_compute; reflexivity).
  split; [exact H|].
  exact (proj2 (mac_table_never_forgets l s 1%N mac_a H)).
Defined.

(** X4: packets handled at other switches do not touch the table of a
    switch. *)
Theorem mac_table_is_per_switch l s dpid :
  Forall (λ m, id (pi_datapath m) ≠ dpid) l →
  mac_table (handle_packets l s).1 dpid = mac_table s dpid.
Proof.
  intros Hl. revert s. induction Hl as [|msg l Hmsg _ IH]; intros s; [done|].
  rewrite handle_packets_cons, IH, packet_in_mac_table.
  by rewrite decide_False.
Qed.

Lemma mac_table_is_per_switch_witness :
  let l := [packet 2 1 0xffffffff mac_a mac_b; packet 3 4 7 mac_b mac_a] in
  mac_table (handle_packets l fresh).1 1%N = mac_table fresh 1%N.
Proof.
  intros l. apply (mac_table_is_per_switch l fresh 1%N).
  repeat constructor; vm_compute; discriminate.
Defined.

(** X5: the handler keeps the topology and the graph of [self], asks the
    topology API nothing, and draws at most one random number. *)
Theorem packet_in_frame msg s :
  let r := _packet_in_handler msg s in
  switches (self r.1) = switches (self s)
  ∧ links (self r.1) = links (self s)
  ∧ hosts (self r.1) = hosts (self s)
  ∧ graph (self r.1) = graph (self s)
  ∧ requests (world r.1) = requests (world s)
  ∧ (draws (world s) ≤ draws (world r.1) ≤ S (draws (world s)))%nat.
Proof.
  intros r. unfold r.
  destruct (packet_in_state msg s) as (l & k & -> & Hk & _).
  split_and!; try done; cbn [advance learned world draws]; lia.
Qed.

(** X6: the first packet of a switch: when [mac_to_port] has no table for
    the switch, [setdefault] creates one, and after the handler the table
    holds the source of the packet and nothing else. *)
Theorem packet_in_creates_table msg s :
  mac_to_port (self s) !! id (pi_datapath msg) = None →
  mac_to_port (self (_packet_in_handler msg s).1) !! id (pi_datapath msg)
  = Some {[ src (pi_eth msg) := pi_in_port msg ]}.
Proof.
  intros Hnone. rewrite (proj2 (packet_in_returns msg s)).
  rewrite learned_table. unfold mac_table. rewrite Hnone.
  cbn [default from_option]. by rewrite insert_empty.
Qed.

Lemma packet_in_creates_table_witness :
  let msg := packet 1 1 0xffffffff mac_a mac_b in
  mac_to_port (self fresh) !! 1%N = None
  ∧ mac_to_port (self (_packet_in_handler msg fresh).1) !! 1%N
    = Some {[ mac_a := 1 ]}.
Proof.
  intros msg.
  assert (H : mac_to_port (self fresh) !! id (pi_datapath msg) = None)
    by reflexivity.
  split; [exact H|]. exact (packet_in_creates_table msg fresh H).
Defined.

(** X7: a destination found at a port [p] other than the flood port: the
    first message is a flow-mod of priority 1 that matches the ingress port
    and the destination and outputs to [p]; a packet-out with the frame and
    the same action follows exactly when the packet was not buffered. *)
Theorem known_destination_installs_rule msg s p :
  <[src (pi_eth msg) := pi_in_port msg]>
    (mac_table s (id (pi_datapath msg))) !! dst (pi_eth msg) = Some p →
  p ≠ ofproto.OFPP_FLOOD →
  ∃ f rest,
    sent (effects_since s (_packet_in_handler msg s).1)
      = (pi_datapath msg, FlowMod f) :: rest
    ∧ fm_datapath f = pi_datapath msg
    ∧ fm_priority f = 1
    ∧ fm_match f = {| in_port := Some (pi_in_port msg);
                      eth_dst := Some (dst (pi_eth msg)) |}
    ∧ fm_instructions f =
        [ {| type_ := ofproto.OFPIT_APPLY_ACTIONS;
             actions := [ {| port := p; max_len := None |} ] |} ]
    ∧ rest =
        if pi_buffer_id msg =? ofproto.OFP_NO_BUFFER then
          [(pi_datapath msg,
            PacketOut {| po_datapath := pi_datapath msg;
                         po_buffer_id := ofproto.OFP_NO_BUFFER;
                         po_in_port := pi_in_port msg;
                         po_actions := [ {| port := p; max_len := None |} ];
                         po_data := Some (pi_data msg) |})]
        else [].
Proof.
  intros Hp Hflood.
  pose proof (packet_in_sent msg s) as H. cbv zeta in H. rewrite H. clear H.
  rewrite Hp. change (default ofproto.OFPP_FLOOD (Some p)) with p.
  destruct (Z.eqb_spec p ofproto.OFPP_FLOOD) as [|_]; [done|].
  destruct (Z.eqb_spec (pi_buffer_id msg) ofproto.OFP_NO_BUFFER) as [->|Hnb].
  { eexists _, _. split; [reflexivity|]. by split_and!. }
  destruct (pi_buffer_id msg =? 0);
    eexists _, _; (split; [reflexivity|]); by split_and!.
Qed.

Lemma known_destination_installs_rule_witness :
  let s := (_packet_in_handler (packet 1 1 0xffffffff mac_a mac_b) fresh).1 in
  let msg := packet 1 2 0xffffffff mac_b mac_a in
  ∃ f rest,
    sent (effects_since s (_packet_in_handler msg s).1)
      = ({| id := 1 |}, FlowMod f) :: rest
    ∧ fm_match f = {| in_port := Some 2; eth_dst := Some mac_a |}
    ∧ length rest = 1%nat.
Proof.
  intros s msg.
  assert (Hp : <[src (pi_eth msg) := pi_in_port msg]>
                 (mac_table s (id (pi_datapath msg))) !! dst (pi_eth msg)
               = Some 1) by (vm_compute; reflexivity).
  assert (Hflood : 1 ≠ ofproto.OFPP_FLOOD) by (vm_compute; discriminate).
  destruct (known_destination_installs_rule msg s 1 Hp Hflood)
    as (f & rest & Hsent & _ & _ & Hmatch & _ & Hrest).
  exists f, rest. split; [exact Hsent|]. split; [exact Hmatch|].
  rewrite Hrest. reflexivity.
Defined.

(** X8: whatever the handler sends goes to the datapath the packet came
    from, and it sends at most one packet-out: one that names the buffer of
    the packet and its ingress port, and that carries the frame exactly when
    the switch did not buffer it. *)
Theorem packet_in_messages msg s :
  let out := sent (effects_since s (_packet_in_handler msg s).1) in
  Forall (λ dm, dm.1 = pi_datapath msg) out
  ∧ (length (filter (λ dm, is_packet_out dm.2 = true) out) ≤ 1)%nat
  ∧ ∀ dp po, (dp, PacketOut po) ∈ out →
      po_datapath po = pi_datapath msg
      ∧ po_buffer_id po = pi_buffer_id msg
      ∧ po_in_port po = pi_in_port msg
      ∧ po_data po = (if pi_buffer_id msg =? ofproto.OFP_NO_BUFFER
                      then Some (pi_data msg) else None).
Proof.
  intros out. unfold out.
  pose proof (packet_in_sent msg s) as H. cbv zeta in H. rewrite H. clear H.
  repeat match goal with |- context [if ?b then _ else _] =>
    destruct b eqn:? end;
    (split; [by repeat constructor|]); (split; [vm_compute; lia|]);
    intros dp po Hin; rewrite ?elem_of_cons, elem_of_nil in Hin;
    destruct Hin as [Hin|Hin]; try done;
    try (destruct Hin as [Hin|Hin]; try done);
    by injection Hin as _ ->.
Qed.

(** The effects of the handler: the debug line, if any, then messages. *)
Lemma packet_in_effects msg s :
  ∃ l, effects_since s (_packet_in_handler msg s).1 = truncation_log msg ++ l
       ∧ Forall (λ e, ∃ dp m, e = Send dp m) l.
Proof.
  pose proof (packet_in_eval msg s) as H. cbv zeta in H. rewrite H. clear H.
  set (s1 := learned msg (advance (truncation_log msg) 0 s)).
  assert (Hs1 : ∀ l k, effects_since s (advance l k s1) = truncation_log msg ++ l).
  { intros l k. apply effects_since_trace. cbn [s1 advance learned world trace].
    by rewrite (assoc_L (++)). }
  destruct (_ =? ofproto.OFPP_FLOOD).
  { cbn [fst]. rewrite Hs1. eexists. split; [done|].
    repeat constructor. by eexists _, _. }
  destruct (_ =? ofproto.OFP_NO_BUFFER).
  { rewrite add_flow_cookie by done. cbn [fst]. rewrite advance_advance, Hs1.
    eexists. split; [done|]. repeat constructor; by eexists _, _. }
  match goal with |- context [add_flow ?d ?p ?m ?a ?b ?s] =>
    destruct (add_flow_advance d p m a b s) as (f & k & -> & _)
  end.
  cbn [fst]. rewrite Hs1. eexists. split; [done|].
  repeat constructor. by eexists _, _.
Qed.

(** X9: the lengths [msg_len] and [total_len] decide the debug line and
    nothing else: the same packet with other lengths is answered with the
    same messages and leaves the same [self]; the line is logged exactly
    when [msg_len < total_len]. *)
Theorem packet_in_truncation_only_logs msg s len total :
  let msg' := {| pi_datapath := pi_datapath msg; pi_msg_len := len;
                 pi_total_len := total; pi_buffer_id := pi_buffer_id msg;
                 pi_in_port := pi_in_port msg; pi_data := pi_data msg;
                 pi_eth := pi_eth msg |} in
  sent (effects_since s (_packet_in_handler msg' s).1)
    = sent (effects_since s (_packet_in_handler msg s).1)
  ∧ self (_packet_in_handler msg' s).1 = self (_packet_in_handler msg s).1
  ∧ (LogDebug "packet truncated: only %s of %s bytes" [len; total]
       ∈ effects_since s (_packet_in_handler msg' s).1
     ↔ len < total).
Proof.
  intros msg'. split_and!.
  - pose proof (packet_in_sent msg s) as H. cbv zeta in H. rewrite H. clear H.
    pose proof (packet_in_sent msg' s) as H. cbv zeta in H. rewrite H. clear H.
    reflexivity.
  - by rewrite (proj2 (packet_in_returns msg s)),
               (proj2 (packet_in_returns msg' s)).
  - destruct (packet_in_effects msg' s) as (l & -> & Hl).
    rewrite elem_of_app. unfold truncation_log. cbn [pi_msg_len pi_total_len msg'].
    destruct (Z.ltb_spec len total) as [Hlt|Hge].
    + split; [done|]. intros _. left. apply list_elem_of_here.
    + split; [|lia]. intros [Hin|Hin]; [by apply elem_of_nil in Hin|].
      rewrite Forall_forall in Hl. by destruct (Hl _ Hin) as (dp & m & ?).
Qed.

(** ** get_topology and handler_switch_event as a whole *)

Lemma loop_result_bound s fuel : ∀ k s1 o,
  loop fuel (polled k s) = Some (s1, o) →
  ∃ m, (k ≤ m ≤ k + fuel)%nat ∧ settled s m
       ∧ (∀ j, k ≤ j < m → ¬ settled s j)%nat
       ∧ s1 = polled m s ∧ o = Returned tt.
Proof.
  induction fuel as [|fuel IH]; intros k s1 o; rewrite loop_step;
    case_bool_decide as Hk; try done.
  - intros [= <- <-]. exists k. split_and!; try done; lia.
  - intros [= <- <-]. exists k. split_and!; try done; lia.
  - intros (m & ? & ? & Hbefore & ? & ?)%IH. exists m.
    split_and!; try done; try lia.
    intros j Hj. destruct (decide (j = k)) as [->|]; [done|].
    apply Hbefore. lia.
Qed.

(** X10: whenever [get_topology] returns, it returns normally with as many
    switches as hosts in [self]: they are the replies of the first poll [m]
    that reported equal numbers, [m] is within the fuel, the loop slept and
    printed [m] times, three requests were made per poll, nothing was sent
    and [mac_to_port] and [graph] are as before. *)
Theorem get_topology_returns_settled fuel s s' o :
  get_topology fuel s = Some (s', o) →
  o = Returned tt
  ∧ length (switches (self s')) = length (hosts (self s'))
  ∧ mac_to_port (self s') = mac_to_port (self s)
  ∧ graph (self s') = graph (self s)
  ∧ sent (effects_since s s') = []
  ∧ ∃ m, (m ≤ fuel)%nat
       ∧ (∀ j, (j < m)%nat → ¬ settled s j)
       ∧ switches (self s') = polled_switches s m
       ∧ links (self s') = polled_links s m
       ∧ hosts (self s') = polled_hosts s m
       ∧ requests (world s') = (3 * S m + requests (world s))%nat
       ∧ effects_since s s' = concat (replicate m waiting).
Proof.
  unfold get_topology. rewrite refresh_first.
  intros (m & Hm & Hsettled & Hbefore & -> & ->)%loop_result_bound.
  assert (Heff : effects_since s (polled m s) = concat (replicate m waiting))
    by (by apply effects_since_trace).
  split_and!; try done.
  - by rewrite Heff, sent_waiting.
  - exists m. split_and!; try done; [lia|].
    intros j Hj. apply Hbefore. lia.
Qed.

Lemma get_topology_returns_settled_witness :
  let run := get_topology 5 booting in
  let s' := (default (booting, Raised KeyError) run).1 in
  run = Some (s', Returned tt)
  ∧ length (switches (self s')) = length (hosts (self s'))
  ∧ sent (effects_since booting s') = [].
Proof.
  intros run s'.
  assert (Hrun : run = Some (s', Returned tt)) by (vm_compute; reflexivity).
  split; [exact Hrun|].
  destruct (get_topology_returns_settled 5 booting s' _ Hrun)
    as (_ & Hlen & _ & _ & Hsent & _).
  split; [exact Hlen|exact Hsent].
Defined.

(** X11: no timeout: while no poll reports as many switches as hosts,
    [get_topology] does not return, whatever the fuel, and neither does
    [handler_switch_event], which calls it first. *)
Theorem get_topology_waits_forever new_Graph s :
  (∀ k, ¬ settled s k) →
  ∀ fuel, get_topology fuel s = None
          ∧ handler_switch_event new_Graph fuel s = None.
Proof.
  intros Hnever fuel.
  assert (Hwait : ∀ s0, (∀ k, ¬ settled s0 k) → get_topology fuel s0 = None).
  { intros s0 H0. unfold get_topology. rewrite refresh_first.
    apply while_waits. intros j _. apply H0. }
  split; [by apply Hwait|].
  unfold handler_switch_event, print at 1. rewrite emit_advance.
  rewrite (Hwait (advance [Print (PStrEnd "New Switch" "")] 0 s)); [done|].
  intros k. apply (Hnever k).
Qed.

Lemma get_topology_waits_forever_witness :
  (∀ k, ¬ settled stalled k)
  ∧ get_topology 1000 stalled = None
  ∧ handler_switch_event (λ _ _ _, line_graph) 1000 stalled = None.
Proof.
  assert (H : ∀ k, ¬ settled stalled k) by (intros k; discriminate).
  split; [exact H|].
  exact (get_topology_waits_forever (λ _ _ _, line_graph) stalled H 1000%nat).
Defined.

(** The loop only adds to the trace, rule pairs for message. *)
Lemma install_flows_trace g s :
  ∃ l rules,
    self (install_flows g s).1 = self s
    ∧ trace (world (install_flows g s).1) = trace (world s) ++ l
    ∧ sent l = pair_messages rules
    ∧ Forall (λ r, path_pair g (switches (self s)) r.1.1 r.1.2 r.2) rules.
Proof.
  rewrite install_flows_eval.
  destruct (loop_sends_pairs g (switches (self s)) (switches (self s))
              (λ _ H, H) (advance [Print (PStr (LF +:+ "Flows:"))] 0 s))
    as (l & rules & Hself & Htrace & Hsent & Hpairs & _).
  exists ([Print (PStr (LF +:+ "Flows:"))] ++ l), rules.
  split_and!; try done.
  rewrite Htrace, advance_trace. by rewrite (assoc_L (++)).
Qed.

(** X12: whenever [handler_switch_event] returns, normally or by an
    exception of the loop: [self] holds a topology with as many switches as
    hosts and the graph built from it, [mac_to_port] is as before, and every
    message sent is a flow-mod of priority 200, without buffer id, to the
    datapath of a switch of [self.switches] whose id is on the path. *)
Theorem handler_switch_event_result new_Graph fuel s s' o :
  handler_switch_event new_Graph fuel s = Some (s', o) →
  let g := new_Graph (switches (self s')) (hosts (self s')) (links (self s')) in
  graph (self s') = Some g
  ∧ length (switches (self s')) = length (hosts (self s'))
  ∧ mac_to_port (self s') = mac_to_port (self s)
  ∧ Forall (λ dm, ∃ sw a f,
              sw ∈ switches (self s') ∧ src_id_of sw = Some a
              ∧ a ∈ switch_path g
              ∧ dm = (sw_dp sw, FlowMod f)
              ∧ fm_datapath f = sw_dp sw ∧ fm_priority f = 200
              ∧ fm_buffer_id f = None)
           (sent (effects_since s s')).
Proof.
  intros (s1 & Htopo & Hrun & Hquiet & Hmac)%handler_switch_event_runs_loop.
  cbv zeta in Hrun, Hquiet, Hmac.
  destruct (get_topology_result _ _ _ _ Htopo) as (m & Hm & Hs1 & _).
  set (g := new_Graph (switches (self s1)) (hosts (self s1)) (links (self s1)))
    in *.
  set (s2 := with_graph g (advance (listing s1) 0 s1)) in *.
  destruct (install_flows_trace g s2) as (l & rules & Hself & Htrace & Hsent & Hpairs).
  rewrite Hrun in Hself, Htrace. cbn [fst] in Hself, Htrace.
  assert (Hs2 : ∃ l0, trace (world s2) = trace (world s) ++ l0 ∧ sent l0 = []).
  { exists ([Print (PStrEnd "New Switch" "")] ++ concat (replicate m waiting)
            ++ listing s1).
    split.
    - unfold s2. cbn [with_graph world advance trace]. rewrite Hs1.
      cbn [polled world trace advance]. by rewrite <- !(assoc_L (++)).
    - rewrite !sent_app, sent_waiting. unfold listing.
      rewrite !sent_app, !sent_prints. reflexivity. }
  destruct Hs2 as (l0 & Hl0 & Hsent0).
  rewrite (effects_since_trace s s' (l0 ++ l))
    by (rewrite Htrace, Hl0; by rewrite (assoc_L (++))).
  rewrite sent_app, Hsent0, Hsent. cbn [app].
  rewrite Hself. change (self s2) with
    {| mac_to_port := mac_to_port (self s1); switches := switches (self s1);
       links := links (self s1); hosts := hosts (self s1); graph := Some g |}.
  cbn [graph switches hosts links mac_to_port]. fold g.
  split; [done|]. split; [by rewrite Hs1|]. split; [by rewrite Hs1|].
  apply Forall_forall. intros [dp msg] (r & Hr & Hm')%pair_messages_elem.
  rewrite Forall_forall in Hpairs.
  destruct (Hpairs r Hr)
    as (sw & a & inp & outp & cf & cb & Hsw & Hi & Ha & _ & _ & _ & _ & Hf & Hb).
  assert (a ∈ switch_path g)
    by (apply list_elem_of_lookup; by exists r.1.1).
  destruct Hm' as [Hm'|Hm']; rewrite Hm'.
  - exists sw, a, (r.1.2). rewrite Hf. by split_and!.
  - exists sw, a, (r.2). rewrite Hb. by split_and!.
Qed.

Lemma handler_switch_event_result_witness :
  let run := handler_switch_event (λ _ _ _, line_graph) 5 booting in
  let s' := (default (booting, Raised KeyError) run).1 in
  run = Some (s', Returned tt)
  ∧ graph (self s') = Some line_graph
  ∧ length (switches (self s')) = length (hosts (self s')).
Proof.
  intros run s'.
  assert (Hrun : run = Some (s', Returned tt)) by (vm_compute; reflexivity).
  split; [exact Hrun|].
  pose proof (handler_switch_event_result _ _ _ _ _ Hrun) as (Hg & Hlen & _).
  split; [exact Hg|exact Hlen].
Defined.

(** ** The exceptions of the path-programming loop *)

Lemma ingress_key_error g a i s :
  (i < length (switch_path g))%nat →
  (if bool_decide (i = O) then ret 1
   else
     row <- subscript (ports g) a ;;
     prev <- item (switch_path g) (i - 1)%nat ;;
     subscript row prev) s =
  match ingress_port g a i with
  | Some p => (s, Returned p)
  | None => (s, Raised KeyError)
  end.
Proof.
  intros Hi. unfold ingress_port, port_towards. case_bool_decide as H0.
  - by rewrite decide_True.
  - rewrite decide_False by done.
    unfold bind, subscript, item, or_raise, ret, raise.
    destruct (ports g !! a) as [row|]; csimpl; [|done].
    destruct (lookup_lt_is_Some_2 (switch_path g) (i - 1)%nat) as [b ->];
      [lia|]. csimpl. by destruct (row !! b).
Qed.

Lemma egress_key_error g a i s :
  (i < length (switch_path g))%nat →
  (if Z.of_nat i =? Z.of_nat (length (switch_path g)) - 1 then ret 1
   else
     row <- subscript (ports g) a ;;
     next <- item (switch_path g) (i + 1)%nat ;;
     subscript row next) s =
  match egress_port g a i with
  | Some p => (s, Returned p)
  | None => (s, Raised KeyError)
  end.
Proof.
  intros Hi. unfold egress_port, port_towards.
  destruct (Z.eqb_spec (Z.of_nat i) (Z.of_nat (length (switch_path g)) - 1))
    as [HN|HN].
  - rewrite decide_True by lia. done.
  - rewrite decide_False by lia.
    unfold bind, subscript, item, or_raise, ret, raise.
    destruct (ports g !! a) as [row|]; csimpl; [|done].
    destruct (lookup_lt_is_Some_2 (switch_path g) (i + 1)%nat) as [b ->];
      [lia|]. csimpl. by destruct (row !! b).
Qed.

Lemma program_switch_key_error g sw s a i :
  src_id_of sw = Some a → index_opt a (switch_path g) = Some i →
  ingress_port g a i = None ∨ egress_port g a i = None →
  program_switch g (Z.of_nat (length (switch_path g))) sw s
  = (s, Raised KeyError).
Proof.
  intros Ha Hi Hnone. destruct (int_src_id sw a s Ha) as (n & Hn & ->).
  assert (Hlt : (i < length (switch_path g))%nat)
    by (eapply lookup_lt_Some, index_opt_Some, Hi).
  unfold program_switch. unfold bind at 1. rewrite Hn.
  rewrite bool_decide_eq_false_2
    by (intros Hnot; apply Hnot, index_opt_elem; by eexists).
  unfold bind at 1, index, or_raise. rewrite Hi. unfold ret at 1.
  unfold bind at 1. rewrite (ingress_key_error g (n - 1) i s Hlt).
  destruct (ingress_port g (n - 1) i) as [inp|]; [|done].
  unfold bind at 1. rewrite (egress_key_error g (n - 1) i s Hlt).
  destruct (egress_port g (n - 1) i) as [outp|]; [|done].
  by destruct Hnone.
Qed.

(** The ways [program_switch] raises; each leaves the state as it was. *)
Lemma program_switch_raise_cases g sw s s' e :
  program_switch g (Z.of_nat (length (switch_path g))) sw s = (s', Raised e) →
  s' = s
  ∧ ((e = ValueError ∧ src_id_of sw = None)
     ∨ (e = KeyError
        ∧ ∃ a i, src_id_of sw = Some a
                 ∧ index_opt a (switch_path g) = Some i
                 ∧ (ingress_port g a i = None ∨ egress_port g a i = None))).
Proof.
  destruct (src_id_of sw) as [a|] eqn:Ha.
  2:{ rewrite program_switch_unreadable by done. intros [= <- <-]. auto. }
  destruct (index_opt a (switch_path g)) as [i|] eqn:Hi.
  2:{ rewrite (program_switch_skips g _ sw s a Ha); [done|].
      rewrite index_opt_elem, Hi. by intros [? ?]. }
  destruct (ingress_port g a i) as [inp|] eqn:Hin;
    [destruct (egress_port g a i) as [outp|] eqn:Hout|].
  - by rewrite (program_switch_installs g sw s a i inp outp).
  - rewrite (program_switch_key_error g sw s a i) by auto.
    intros [= <- <-]. split; [done|]. right. split; [done|].
    exists a, i. auto.
  - rewrite (program_switch_key_error g sw s a i) by auto.
    intros [= <- <-]. split; [done|]. right. split; [done|].
    exists a, i. auto.
Qed.

(** The lookups of lines 230-250 change nothing. *)
Lemma path_ports_eval g sw s :
  path_ports g (Z.of_nat (length (switch_path g))) sw s =
  (s, match src_id_of sw with
      | None => Raised ValueError
      | Some a =>
          match index_opt a (switch_path g) with
          | None => Returned None
          | Some i =>
              match ingress_port g a i, egress_port g a i with
              | Some inp, Some outp => Returned (Some (a, inp, outp))
              | _, _ => Raised KeyError
              end
          end
      end).
Proof.
  destruct (src_id_of sw) as [a|] eqn:Ha.
  2:{ unfold src_id_of in Ha. unfold path_ports, bind, int.
      by destruct (int_value _). }
  destruct (int_src_id sw a s Ha) as (n & Hn & ->).
  unfold path_ports. unfold bind at 1. rewrite Hn.
  destruct (index_opt (n - 1) (switch_path g)) as [i|] eqn:Hi.
  2:{ rewrite bool_decide_eq_true_2; [done|].
      rewrite index_opt_elem, Hi. by intros [? ?]. }
  assert (Hlt : (i < length (switch_path g))%nat)
    by (eapply lookup_lt_Some, index_opt_Some, Hi).
  rewrite bool_decide_eq_false_2
    by (intros Hnot; apply Hnot, index_opt_elem; by eexists).
  unfold bind at 1, index, or_raise. rewrite Hi. unfold ret at 1.
  unfold bind at 1. rewrite (ingress_key_error g (n - 1) i s Hlt).
  destruct (ingress_port g (n - 1) i) as [inp|]; [|done].
  unfold bind at 1. rewrite (egress_key_error g (n - 1) i s Hlt).
  by destruct (egress_port g (n - 1) i) as [outp|].
Qed.

Lemma install_pair_eval datapath a inp outp s :
  install_pair datapath a inp outp s =
  (advance
     [Print (PInstalling (a + 1)); Print (PMatchAction inp outp);
      Send datapath (FlowMod (path_rule datapath inp outp (next_cookie s)));
      Print (PMatchAction outp inp);
      Send datapath
        (FlowMod (path_rule datapath outp inp
                    (next_cookie (advance [] 1 s))))] 2 s,
   Returned tt).
Proof.
  unfold install_pair, bind, print. rewrite !emit_advance.
  rewrite add_flow_cookie by done. rewrite emit_advance.
  rewrite add_flow_cookie by done.
  rewrite !advance_advance. done.
Qed.

(** X13: the loop body is its lookups (lines 230-250) followed by the two
    rules (lines 252-262), and the lookups change nothing and end in one of
    four ways: [continue] for a readable id that is not on the path; the
    id and the two ports of lines 242-250; [ValueError] when [int] cannot
    read the dpid string; [KeyError] when the switch is on the path and
    [ports] lacks its port towards a neighbour.  The subscripts of
    [switch_path] never raise [IndexError], and [index] never raises. *)
Theorem path_ports_outcomes g sw s :
  let len := Z.of_nat (length (switch_path g)) in
  let r := path_ports g len sw s in
  program_switch g len sw s
  = match r.2 with
    | Returned None => (r.1, Returned tt)
    | Returned (Some (a, inp, outp)) => install_pair (sw_dp sw) a inp outp r.1
    | Raised e => (r.1, Raised e)
    end
  ∧ r.1 = s
  ∧ match r.2 with
    | Returned None => ∃ a, src_id_of sw = Some a ∧ a ∉ switch_path g
    | Returned (Some (a, inp, outp)) =>
        src_id_of sw = Some a
        ∧ ∃ i, index_opt a (switch_path g) = Some i
               ∧ ingress_port g a i = Some inp
               ∧ egress_port g a i = Some outp
    | Raised e =>
        (e = ValueError ∧ src_id_of sw = None)
        ∨ (e = KeyError
           ∧ ∃ a i, src_id_of sw = Some a
                    ∧ index_opt a (switch_path g) = Some i
                    ∧ (ingress_port g a i = None
                       ∨ egress_port g a i = None))
    end.
Proof.
  intros len r. unfold r, len. clear r len.
  rewrite path_ports_eval. cbn [fst snd].
  destruct (src_id_of sw) as [a|] eqn:Ha.
  2:{ rewrite program_switch_unreadable by done. auto. }
  destruct (index_opt a (switch_path g)) as [i|] eqn:Hi.
  2:{ assert (Hout : a ∉ switch_path g)
        by (rewrite index_opt_elem, Hi; by intros [? ?]).
      rewrite (program_switch_skips g _ sw s a Ha Hout).
      split_and!; try done. by exists a. }
  destruct (ingress_port g a i) as [inp|] eqn:Hin;
    [destruct (egress_port g a i) as [outp|] eqn:Hout|].
  - rewrite (program_switch_installs g sw s a i inp outp) by done.
    rewrite install_pair_eval. split_and!; try done. by exists i.
  - rewrite (program_switch_key_error g sw s a i) by auto.
    split_and!; try done. right. split; [done|]. exists a, i. auto.
  - rewrite (program_switch_key_error g sw s a i) by auto.
    split_and!; try done. right. split; [done|]. exists a, i. auto.
Qed.

Lemma for_each_app {A} (l1 l2 : list A) (body : A → M unit) s s1 :
  for_each l1 body s = (s1, Returned tt) →
  for_each (l1 ++ l2) body s = for_each l2 body s1.
Proof.
  revert s. induction l1 as [|x l1 IH]; intros s; cbn [for_each app].
  - unfold ret. by intros [= <-].
  - unfold bind. destruct (body x s) as [s0 [[]|e]]; [|done]. apply IH.
Qed.

(** X14: the loop stops at the first switch that raises: the switches
    before it in [self.switches] keep the rules they were sent, the switch
    itself and all that follow get nothing, and the handler ends with that
    exception. *)
Theorem install_flows_stops_at_first_exception g s pre sw post s1 e :
  switches (self s) = pre ++ sw :: post →
  for_each pre (program_switch g (Z.of_nat (length (switch_path g))))
    (advance [Print (PStr (LF +:+ "Flows:"))] 0 s) = (s1, Returned tt) →
  (program_switch g (Z.of_nat (length (switch_path g))) sw s1).2 = Raised e →
  install_flows g s = (s1, Raised e).
Proof.
  intros Hsws Hpre Hsw. rewrite install_flows_eval, Hsws.
  rewrite (for_each_app pre (sw :: post) _ _ s1 Hpre). cbn [for_each].
  destruct (program_switch _ _ sw s1) as [s' o] eqn:Hrun.
  cbn [snd] in Hsw. subst o.
  destruct (program_switch_raise_cases _ _ _ _ _ Hrun) as [-> _].
  by rewrite (bind_raised _ _ _ _ _ Hrun).
Qed.

Lemma install_flows_stops_at_first_exception_witness :
  let s := {| self := {| mac_to_port := ∅;
                         switches := [line_switch 2; line_switch 10;
                                      line_switch 1; line_switch 3];
                         links := []; hosts := [];
                         graph := Some line_graph |};
              world := quiet |} in
  (install_flows line_graph s).2 = Raised ValueError
  ∧ map (λ dm, id dm.1)
        (sent (effects_since s (install_flows line_graph s).1)) = [2%N; 2%N].
Proof.
  intros s.
  set (s1 := (for_each [line_switch 2]
                (program_switch line_graph
                   (Z.of_nat (length (switch_path line_graph))))
                (advance [Print (PStr (LF +:+ "Flows:"))] 0 s)).1).
  assert (Hrun : install_flows line_graph s = (s1, Raised ValueError)).
  { apply (install_flows_stops_at_first_exception line_graph s
             [line_switch 2] (line_switch 10) [line_switch 1; line_switch 3]).
    - reflexivity.
    - vm_compute. reflexivity.
    - vm_compute. reflexivity. }
  rewrite Hrun. split; [reflexivity|]. vm_compute. reflexivity.
Defined.

(** ** Datapath ids, printed in hexadecimal and read in decimal *)

Lemma decimal_acc s : ∀ acc v,
  decimal s acc = Some v →
  ∃ v0, decimal s 0 = Some v0 ∧ 0 ≤ v0
        ∧ v = acc * 10 ^ Z.of_nat (String.length s) + v0.
Proof.
  induction s as [|c s IH]; intros acc v; cbn [decimal String.length].
  - intros [= <-]. exists 0. split; [done|]. split; [done|]. lia.
  - unfold decimal_digit.
    destruct (_ && _) eqn:Hc; [|done].
    apply andb_prop in Hc as [Hlo%Z.leb_le Hhi%Z.leb_le].
    set (d := Z.of_N (N_of_ascii c) - 48) in *.
    intros (v1 & Hv1 & Hpos1 & ->)%IH.
    replace (10 * 0 + d) with d by lia.
    destruct (decimal s d) as [v2|] eqn:Hv2.
    + destruct (IH _ _ Hv2) as (v3 & Hv3 & Hpos3 & ->).
      assert (v3 = v1) as -> by congruence.
      exists (d * 10 ^ Z.of_nat (String.length s) + v1).
      split; [done|]. split; [nia|].
      rewrite Nat2Z.inj_succ, Z.pow_succ_r by lia. lia.
    + exfalso. clear -Hv1 Hv2 IH.
      revert Hv2. generalize d. clear d.
      assert (Hall : ∀ s' a b, decimal s' a = None → decimal s' b = None).
      { induction s' as [|c' s' IH']; intros a b; cbn [decimal]; [done|].
        destruct (decimal_digit c'); [|done]. apply IH'. }
      intros d Hd. by rewrite (Hall s d 0 Hd) in Hv1.
Qed.

Lemma hex_digit_decimal r d :
  (r < 16)%N → decimal_digit (hex_digit r) = Some d →
  d = Z.of_N r ∧ (r < 10)%N.
Proof.
  intros Hr.
  assert (Hcases : (r = 0 ∨ r = 1 ∨ r = 2 ∨ r = 3 ∨ r = 4 ∨ r = 5 ∨ r = 6
                    ∨ r = 7 ∨ r = 8 ∨ r = 9 ∨ r = 10 ∨ r = 11 ∨ r = 12
                    ∨ r = 13 ∨ r = 14 ∨ r = 15)%N) by lia.
  repeat (destruct Hcases as [->|Hcases]); try subst r;
    vm_compute; intros [= <-]; done.
Qed.

(** What [int] makes of the digits [hex_digits] writes for [n] in front of
    [acc]: a number [vn] in front of the value of [acc], never more than
    [n], and [n] itself only below 10. *)
Lemma hex_digits_decimal fuel : ∀ n acc v,
  decimal (hex_digits fuel n acc) 0 = Some v →
  ∃ vn va, decimal acc 0 = Some va
           ∧ v = vn * 10 ^ Z.of_nat (String.length acc) + va
           ∧ 0 ≤ vn ≤ Z.of_N n
           ∧ (vn = Z.of_N n → (n < 10)%N).
Proof.
  induction fuel as [|fuel IH]; intros n acc v; cbn [hex_digits].
  { intros Hv. exists 0, v. split_and!; try done; lia. }
  destruct (N.eqb_spec n 0) as [->|Hn].
  { intros Hv. exists 0, v. split_and!; try done; lia. }
  intros (vq & va' & Hacc' & -> & Hvq & Hsame)%IH.
  cbn [decimal String.length] in Hacc'.
  destruct (decimal_digit (hex_digit (n `mod` 16)%N)) as [d|] eqn:Hd; [|done].
  destruct (hex_digit_decimal _ _ (N.mod_lt n 16 ltac:(done)) Hd) as [-> Hlt].
  apply decimal_acc in Hacc' as (va & Hva & Hpos & ->).
  pose proof (N.div_mod n 16 ltac:(done)) as Hdiv.
  assert (Hz : Z.of_N n = 16 * Z.of_N (n / 16) + Z.of_N (n `mod` 16)) by lia.
  exists (10 * vq + Z.of_N (n `mod` 16)), va.
  split; [done|]. split.
  { cbn [String.length]. rewrite Nat2Z.inj_succ, Z.pow_succ_r by lia. lia. }
  assert (Hr : 0 ≤ Z.of_N (n `mod` 16) < 10).
  { split; [apply N2Z.is_nonneg|]. by apply (N2Z.inj_lt _ 10). }
  assert (Hq : Z.of_N (n / 16) = 0 → (n < 10)%N).
  { intros Hq0. apply (N2Z.inj_lt n 10). rewrite Hz, Hq0.
    change (Z.of_N 10) with 10. clear -Hr. lia. }
  clear Hdiv Hsame Hlt Hd.
  revert Hz Hvq Hr Hq.
  generalize (Z.of_N (n / 16)) (Z.of_N (n `mod` 16)) (Z.of_N n).
  intros q r zn Hz Hvq Hr Hq. split; [lia|]. intros Heq. apply Hq. lia.
Qed.

Lemma decimal_zero_padding k s :
  decimal (String.concat "" (replicate k "0") +:+ s) 0 = decimal s 0.
Proof.
  induction k as [|k IH]; [done|].
  cbn [replicate]. destruct k as [|k].
  - reflexivity.
  - change (decimal (String.concat "" (replicate (S k) "0") +:+ s) 0
            = decimal s 0). apply IH.
Qed.

Lemma int_value_dpid_to_str d :
  int_value (dpid_to_str d)
  = decimal (hex_digits (N.to_nat (N.size d)) d "") 0.
Proof.
  unfold dpid_to_str.
  set (digits := hex_digits _ d "").
  rewrite <- (decimal_zero_padding (16 - String.length digits) digits).
  unfold int_value.
  destruct (String.concat "" _ +:+ digits) eqn:Hs; [|done].
  exfalso. clear -Hs.
  destruct (decide (String.length digits = 0)%nat) as [H0|H0].
  - rewrite H0 in Hs. discriminate.
  - destruct digits; [done|].
    destruct (16 - String.length (String a digits))%nat as [|[|n]];
      cbn in Hs; discriminate.
Qed.

(** X15: a switch is given the zero-indexed id of the path, its datapath id
    minus one, exactly when the datapath id is below 10: from 10 on, the
    hexadecimal string of [to_dict] read by [int] gives no number or another
    one. *)
Theorem src_id_is_dpid_minus_one_iff sw :
  src_id_of sw = Some (Z.of_N (id (sw_dp sw)) - 1)
  ↔ (id (sw_dp sw) < 10)%N.
Proof.
  destruct sw as [[d] ps]. unfold src_id_of, to_dict. cbn [sw_dp id d_dpid].
  split.
  - rewrite int_value_dpid_to_str.
    destruct (decimal _ 0) as [v|] eqn:Hv; [|done]. cbn [fmap option_fmap option_map].
    intros [= Heq].
    apply hex_digits_decimal in Hv as (vn & va & [= <-] & -> & _ & Hsame).
    apply Hsame. cbn [String.length] in Heq. lia.
  - intros Hd.
    assert (Hcases : (d = 0 ∨ d = 1 ∨ d = 2 ∨ d = 3 ∨ d = 4 ∨ d = 5 ∨ d = 6
                      ∨ d = 7 ∨ d = 8 ∨ d = 9)%N) by lia.
    repeat (destruct Hcases as [->|Hcases]); try subst d; reflexivity.
Qed.

(** X16: a datapath id whose last hexadecimal digit is a letter cannot be
    read: [int] raises [ValueError] at line 231, before anything is sent
    for the switch. *)
Theorem hex_letter_dpid_unreadable g sw s :
  (10 ≤ id (sw_dp sw) `mod` 16)%N →
  src_id_of sw = None
  ∧ program_switch g (Z.of_nat (length (switch_path g))) sw s
    = (s, Raised ValueError).
Proof.
  intros Hletter.
  assert (Hnone : src_id_of sw = None);
    [|split; [done|by apply program_switch_unreadable]].
  destruct sw as [[d] ps]. unfold src_id_of, to_dict in *.
  cbn [sw_dp id d_dpid] in *.
  rewrite int_value_dpid_to_str.
  assert (Hd : d ≠ 0%N) by (intros ->; done).
  destruct (N.to_nat (N.size d)) as [|fuel] eqn:Hfuel.
  { destruct d; [done|]. cbn in Hfuel. lia. }
  cbn [hex_digits]. rewrite (proj2 (N.eqb_neq d 0) Hd).
  destruct (decimal _ 0) as [v|] eqn:Hv; [|done].
  apply hex_digits_decimal in Hv as (vn & va & Hacc & _).
  cbn [decimal] in Hacc.
  destruct (decimal_digit (hex_digit (d `mod` 16)%N)) as [x|] eqn:Hx; [|done].
  apply hex_digit_decimal in Hx as [_ Hlt]; [lia|].
  by apply N.mod_lt.
Qed.

Lemma hex_letter_dpid_unreadable_witness :
  (10 ≤ id (sw_dp (line_switch 0x2a)) `mod` 16)%N
  ∧ src_id_of (line_switch 0x2a) = None.
Proof.
  assert (H : (10 ≤ id (sw_dp (line_switch 0x2a)) `mod` 16)%N)
    by (vm_compute; discriminate).
  split; [exact H|].
  exact (proj1 (hex_letter_dpid_unreadable line_graph (line_switch 0x2a)
                  line H)).
Defined.

(** ** The shape of the path *)

Lemma program_switch_installs_sent g sw s a i inp outp :
  src_id_of sw = Some a → index_opt a (switch_path g) = Some i →
  ingress_port g a i = Some inp → egress_port g a i = Some outp →
  (program_switch g (Z.of_nat (length (switch_path g))) sw s).2 = Returned tt
  ∧ rule_shape <$>
      sent (effects_since s
              (program_switch g (Z.of_nat (length (switch_path g))) sw s).1)
    = [(sw_dp sw, Some ({| in_port := Some inp; eth_dst := None |}, 200),
        [ {| port := outp; max_len := None |} ]);
       (sw_dp sw, Some ({| in_port := Some outp; eth_dst := None |}, 200),
        [ {| port := inp; max_len := None |} ])].
Proof.
  intros Ha Hi Hin Hout.
  rewrite (program_switch_installs g sw s a i inp outp) by done.
  cbn [fst snd]. by rewrite effects_since_advance.
Qed.

(** X17: a path of one switch: the switch is first and last hop at once, so
    both rules match port 1 and output to port 1; the second flow-mod
    repeats the first. *)
Theorem single_switch_path_repeats_rule g sw s a :
  switch_path g = [a] → src_id_of sw = Some a →
  (program_switch g (Z.of_nat (length (switch_path g))) sw s).2 = Returned tt
  ∧ rule_shape <$>
      sent (effects_since s
              (program_switch g (Z.of_nat (length (switch_path g))) sw s).1)
    = replicate 2
        (sw_dp sw, Some ({| in_port := Some 1; eth_dst := None |}, 200),
         [ {| port := 1; max_len := None |} ]).
Proof.
  intros Hpath Ha.
  apply (program_switch_installs_sent g sw s a 0 1 1); try done.
  - rewrite Hpath. cbn [index_opt]. by rewrite decide_True.
  - unfold egress_port. rewrite Hpath. by rewrite decide_True.
Qed.

Lemma single_switch_path_repeats_rule_witness :
  let g := {| switch_path := [4]; ports := ∅ |} in
  switch_path g = [4] ∧ src_id_of (line_switch 5) = Some 4
  ∧ (program_switch g 1 (line_switch 5) fresh).2 = Returned tt.
Proof.
  intros g.
  assert (Hpath : switch_path g = [4]) by reflexivity.
  assert (Ha : src_id_of (line_switch 5) = Some 4) by reflexivity.
  split; [exact Hpath|]. split; [exact Ha|].
  exact (proj1 (single_switch_path_repeats_rule g (line_switch 5) fresh 4
                  Hpath Ha)).
Defined.

Lemma index_opt_NoDup l i a :
  NoDup l → l !! i = Some a → index_opt a l = Some i.
Proof.
  intros Hl. revert i. induction Hl as [|y l Hy Hl IH]; intros i; [done|].
  destruct i as [|i]; cbn [index_opt].
  - intros [= ->]. by rewrite decide_True.
  - intros Hi. change (l !! i = Some a) in Hi.
    rewrite decide_False.
    + by rewrite (IH i Hi).
    + intros ->. apply Hy. apply list_elem_of_lookup. by exists i.
Qed.

(** Walking the path from the other end swaps the ingress and the egress
    port of every switch on it. *)
Lemma reversed_ports g a i :
  NoDup (switch_path g) → index_opt a (switch_path g) = Some i →
  let j := (length (switch_path g) - S i)%nat in
  index_opt a (switch_path (reversed g)) = Some j
  ∧ ingress_port (reversed g) a j = egress_port g a i
  ∧ egress_port (reversed g) a j = ingress_port g a i.
Proof.
  intros Hnodup Hi j. apply index_opt_Some in Hi.
  pose proof (lookup_lt_Some _ _ _ Hi) as Hlt.
  assert (Hrev : ∀ k, (k < length (switch_path g))%nat →
            reverse (switch_path g) !! k
            = switch_path g !! (length (switch_path g) - S k)%nat)
    by (intros k Hk; by apply reverse_lookup).
  split_and!.
  - apply index_opt_NoDup; cbn [reversed switch_path];
      [by rewrite reverse_Permutation|].
    rewrite Hrev by lia.
    by replace (length (switch_path g) - S j)%nat with i by lia.
  - unfold ingress_port, egress_port, port_towards.
    cbn [reversed switch_path ports].
    destruct (decide (j = 0%nat)) as [Hj|Hj].
    + by rewrite decide_True by lia.
    + rewrite decide_False by lia. rewrite Hrev by lia.
      by replace (length (switch_path g) - S (j - 1))%nat
        with (i + 1)%nat by lia.
  - unfold ingress_port, egress_port, port_towards.
    cbn [reversed switch_path ports]. rewrite length_reverse.
    destruct (decide (i = 0%nat)) as [Hi0|Hi0].
    + by rewrite decide_True by lia.
    + rewrite decide_False by lia. rewrite Hrev by lia.
      by replace (length (switch_path g) - S (j + 1))%nat
        with (i - 1)%nat by lia.
Qed.

(** X18: path programming does not depend on the direction of the path: for
    a path without repeated switch, the same path walked from the other end
    makes [program_switch] end the same way and send the same two rules to
    the switch, in the opposite order. *)
Theorem reversed_path_same_rules g sw s :
  NoDup (switch_path g) →
  let length := Z.of_nat (length (switch_path g)) in
  (program_switch (reversed g) length sw s).2 = (program_switch g length sw s).2
  ∧ rule_shape <$>
      sent (effects_since s (program_switch (reversed g) length sw s).1)
    = reverse (rule_shape <$>
                 sent (effects_since s (program_switch g length sw s).1)).
Proof.
  intros Hnodup len. unfold len.
  assert (Hlen : Z.of_nat (length (switch_path g))
                 = Z.of_nat (length (switch_path (reversed g))))
    by (cbn [reversed switch_path]; by rewrite length_reverse).
  assert (Hnil : ∀ s0, sent (effects_since s0 s0) = []).
  { intros s0. unfold effects_since. by rewrite drop_all. }
  destruct (src_id_of sw) as [a|] eqn:Ha.
  2:{ rewrite !program_switch_unreadable by done. cbn [fst snd].
      by rewrite Hnil. }
  destruct (index_opt a (switch_path g)) as [i|] eqn:Hi.
  2:{ assert (Hout : a ∉ switch_path g)
        by (rewrite index_opt_elem, Hi; by intros [? ?]).
      assert (Hout' : a ∉ switch_path (reversed g))
        by (cbn [reversed switch_path]; by rewrite elem_of_reverse).
      rewrite (program_switch_skips g _ sw s a Ha Hout).
      rewrite (program_switch_skips (reversed g) _ sw s a Ha Hout').
      cbn [fst snd]. by rewrite Hnil. }
  destruct (reversed_ports g a i Hnodup Hi) as (Hj & Hin' & Hout').
  destruct (ingress_port g a i) as [inp|] eqn:Hin;
    [destruct (egress_port g a i) as [outp|] eqn:Hout|].
  - destruct (program_switch_installs_sent g sw s a i inp outp)
      as [-> ->]; try done.
    pose proof (program_switch_installs_sent (reversed g) sw s a _ outp inp
                  Ha Hj Hin' Hout') as Hr.
    rewrite <- Hlen in Hr. destruct Hr as [-> ->]. done.
  - rewrite (program_switch_key_error g sw s a i) by auto.
    pose proof (program_switch_key_error (reversed g) sw s a _ Ha Hj
                  (or_introl Hin')) as Hr.
    rewrite <- Hlen in Hr. rewrite Hr.
    cbn [fst snd]. by rewrite Hnil.
  - rewrite (program_switch_key_error g sw s a i) by auto.
    pose proof (program_switch_key_error (reversed g) sw s a _ Ha Hj
                  (or_intror Hout')) as Hr.
    rewrite <- Hlen in Hr. rewrite Hr.
    cbn [fst snd]. by rewrite Hnil.
Qed.

Lemma reversed_path_same_rules_witness :
  NoDup (switch_path line_graph)
  ∧ rule_shape <$>
      sent (effects_since line
              (program_switch (reversed line_graph) 3 (line_switch 2) line).1)
    = [({| id := 2 |}, Some ({| in_port := Some 3; eth_dst := None |}, 200),
        [ {| port := 2; max_len := None |} ]);
       ({| id := 2 |}, Some ({| in_port := Some 2; eth_dst := None |}, 200),
        [ {| port := 3; max_len := None |} ])].
Proof.
  assert (Hpath : NoDup (switch_path line_graph)) by decide_by_evaluation.
  split; [exact Hpath|].
  pose proof (proj2 (reversed_path_same_rules line_graph (line_switch 2) line
                       Hpath)) as H.
  cbv zeta in H.
  change (Z.of_nat (length (switch_path line_graph))) with 3 in H.
  rewrite H. vm_compute. reflexivity.
Defined.

(** ** Running the loop again *)

(** What [program_switch] sends to a switch does not depend on the world:
    the same [self] gives the same outcome and the same rules, whatever was
    sent, drawn or asked before. *)
Lemma program_switch_shape g sw s s2 :
  let length := Z.of_nat (length (switch_path g)) in
  (program_switch g length sw s2).2 = (program_switch g length sw s).2
  ∧ rule_shape <$> sent (effects_since s2 (program_switch g length sw s2).1)
    = rule_shape <$> sent (effects_since s (program_switch g length sw s).1)
  ∧ self (program_switch g length sw s).1 = self s
  ∧ ∃ l, trace (world (program_switch g length sw s).1) = trace (world s) ++ l
         ∧ effects_since s (program_switch g length sw s).1 = l.
Proof.
  intros len. unfold len.
  assert (Hnil : ∀ s0, effects_since s0 s0 = []).
  { intros s0. unfold effects_since. by rewrite drop_all. }
  assert (Hsame : ∀ s0, ∃ l, trace (world s0) = trace (world s0) ++ l
                             ∧ effects_since s0 s0 = l).
  { intros s0. exists []. by rewrite (right_id_L [] (++)), Hnil. }
  destruct (src_id_of sw) as [a|] eqn:Ha.
  2:{ rewrite !program_switch_unreadable by done. cbn [fst snd].
      split_and!; [done|by rewrite !Hnil|done|apply Hsame]. }
  destruct (index_opt a (switch_path g)) as [i|] eqn:Hi.
  2:{ assert (Hout : a ∉ switch_path g)
        by (rewrite index_opt_elem, Hi; by intros [? ?]).
      rewrite !(program_switch_skips g _ sw _ a Ha Hout). cbn [fst snd].
      split_and!; [done|by rewrite !Hnil|done|apply Hsame]. }
  destruct (ingress_port g a i) as [inp|] eqn:Hin;
    [destruct (egress_port g a i) as [outp|] eqn:Hout|].
  - destruct (program_switch_installs_sent g sw s a i inp outp)
      as [-> ->]; try done.
    destruct (program_switch_installs_sent g sw s2 a i inp outp)
      as [-> ->]; try done.
    rewrite (program_switch_installs g sw s a i inp outp) by done.
    cbn [fst]. split_and!; try done.
    eexists. split; [apply advance_trace|apply effects_since_advance].
  - rewrite !(program_switch_key_error g sw _ a i) by auto. cbn [fst snd].
    split_and!; [done|by rewrite !Hnil|done|apply Hsame].
  - rewrite !(program_switch_key_error g sw _ a i) by auto. cbn [fst snd].
    split_and!; [done|by rewrite !Hnil|done|apply Hsame].
Qed.

Lemma for_each_shape g sws : ∀ s s2,
  let body := program_switch g (Z.of_nat (length (switch_path g))) in
  (for_each sws body s2).2 = (for_each sws body s).2
  ∧ rule_shape <$> sent (effects_since s2 (for_each sws body s2).1)
    = rule_shape <$> sent (effects_since s (for_each sws body s).1).
Proof.
  induction sws as [|sw rest IH]; intros s s2 body.
  { cbn [for_each]. unfold ret. cbn [fst snd].
    unfold effects_since. by rewrite !drop_all. }
  assert (Htrace : ∀ s0, ∃ l0 l1,
    effects_since s0 (body sw s0).1 = l0
    ∧ trace (world (body sw s0).1) = trace (world s0) ++ l0
    ∧ trace (world (for_each rest body (body sw s0).1).1)
      = trace (world (body sw s0).1) ++ l1
    ∧ effects_since (body sw s0).1 (for_each rest body (body sw s0).1).1 = l1).
  { intros s0.
    destruct (program_switch_shape g sw s0 s0) as (_ & _ & _ & l0 & Hl0 & He0).
    destruct (loop_sends_pairs g rest rest (λ _ H, H) (body sw s0).1)
      as (l1 & _ & _ & Hl1 & _).
    exists l0, l1. split_and!; try done. by apply effects_since_trace. }
  destruct (program_switch_shape g sw s s2) as (Hout & Hshape & _).
  cbv zeta in Hout, Hshape. fold body in Hout, Hshape.
  destruct (Htrace s) as (l0 & l1 & He0 & Ht0 & Ht1 & He1).
  destruct (Htrace s2) as (l0' & l1' & He0' & Ht0' & Ht1' & He1').
  rewrite He0, He0' in Hshape.
  destruct (IH (body sw s).1 (body sw s2).1) as [IHout IHshape].
  fold body in IHout, IHshape.
  rewrite He1, He1' in IHshape.
  cbn [for_each]. unfold bind.
  destruct (body sw s) as [s1 o1] eqn:Hrun.
  destruct (body sw s2) as [s1' o1'] eqn:Hrun'.
  cbn [fst snd] in *. subst o1'.
  destruct o1 as [[]|e]; cbn [fst snd].
  - split; [done|].
    rewrite (effects_since_trace s2 _ (l0' ++ l1'))
      by (rewrite Ht1', Ht0'; by rewrite (assoc_L (++))).
    rewrite (effects_since_trace s _ (l0 ++ l1))
      by (rewrite Ht1, Ht0; by rewrite (assoc_L (++))).
    rewrite !sent_app, !fmap_app. by rewrite Hshape, IHshape.
  - split; [done|]. by rewrite He0, He0'.
Qed.

(** X19: what the loop sends is decided by the graph and [self.switches]
    alone: run again in any later state with the same switches, it ends the
    same way and sends the same rules to the same switches in the same
    order; only the cookies are drawn anew. *)
Theorem install_flows_repeats g s s2 :
  switches (self s2) = switches (self s) →
  (install_flows g s2).2 = (install_flows g s).2
  ∧ rule_shape <$> sent (effects_since s2 (install_flows g s2).1)
    = rule_shape <$> sent (effects_since s (install_flows g s).1).
Proof.
  intros Hsws. rewrite !install_flows_eval, Hsws.
  set (body := program_switch g (Z.of_nat (length (switch_path g)))).
  set (p := [Print (PStr (LF +:+ "Flows:"))]).
  destruct (for_each_shape g (switches (self s)) (advance p 0 s)
              (advance p 0 s2)) as [Hout Hshape].
  fold body in Hout, Hshape. split; [done|].
  assert (Hskip : ∀ s0,
    sent (effects_since s0 (for_each (switches (self s)) body (advance p 0 s0)).1)
    = sent (effects_since (advance p 0 s0)
              (for_each (switches (self s)) body (advance p 0 s0)).1)).
  { intros s0.
    destruct (loop_sends_pairs g (switches (self s)) (switches (self s))
                (λ _ H, H) (advance p 0 s0)) as (l & _ & _ & Hl & _).
    fold body in Hl.
    rewrite (effects_since_trace s0 _ (p ++ l))
      by (rewrite Hl, advance_trace; by rewrite (assoc_L (++))).
    by rewrite (effects_since_trace (advance p 0 s0) _ l). }
  by rewrite !Hskip.
Qed.

Lemma install_flows_repeats_witness :
  let s2 := (install_flows line_graph line).1 in
  switches (self s2) = switches (self line)
  ∧ rule_shape <$> sent (effects_since s2 (install_flows line_graph s2).1)
    = rule_shape <$> sent (effects_since line (install_flows line_graph line).1).
Proof.
  intros s2.
  assert (H : switches (self s2) = switches (self line)) by reflexivity.
  split; [exact H|].
  exact (proj2 (install_flows_repeats line_graph line s2 H)).
Defined.

(** ** The whole of add_flow and of the forwarding decision *)

(** X20: what [add_flow] does, for any argument: it never changes [self],
    it calls [datapath.send_msg] once, with a flow-mod, and has no other
    effect, and it takes one number from the random generator exactly when
    the flow-mod names no buffer, which is when [buffer_id] is [None] or
    0. *)
Theorem add_flow_effects datapath priority match_ acts buffer_id s :
  let r := add_flow datapath priority match_ acts buffer_id s in
  let unbuffered := bool_decide (buffer_id = None ∨ buffer_id = Some 0) in
  self r.1 = self s
  ∧ requests (world r.1) = requests (world s)
  ∧ draws (world r.1)
    = ((if unbuffered then 1 else 0) + draws (world s))%nat
  ∧ ∃ f, effects_since s r.1 = [Send datapath (FlowMod f)]
         ∧ fm_buffer_id f = (if unbuffered then None else buffer_id)
         ∧ (fm_cookie f = None ↔ unbuffered = false).
Proof.
  intros r unbuffered. unfold r, unbuffered.
  destruct buffer_id as [b|].
  - destruct (decide (b = 0)) as [->|Hb].
    + rewrite add_flow_cookie by done. cbn [fst snd].
      rewrite bool_decide_eq_true_2 by auto.
      rewrite effects_since_advance. split_and!; try done.
      eexists. split; [done|]. by split.
    + rewrite add_flow_buffered by done. cbn [fst snd].
      rewrite bool_decide_eq_false_2 by (intros [?|[= ?]]; done).
      rewrite effects_since_advance. split_and!; try done.
      eexists. split; [done|]. by split.
  - rewrite add_flow_cookie by done. cbn [fst snd].
    rewrite bool_decide_eq_true_2 by auto.
    rewrite effects_since_advance. split_and!; try done.
    eexists. split; [done|]. by split.
Qed.

(** X21: the number of forwarding decisions the handler takes for a packet,
    in every case: one, except for a packet buffered under reference 0 whose
    destination is known at a port other than the flood port, for which it
    takes none. *)
Theorem packet_in_decision_count msg s :
  let table := <[src (pi_eth msg) := pi_in_port msg]>
                 (mac_table s (id (pi_datapath msg))) in
  let out_port := default ofproto.OFPP_FLOOD (table !! dst (pi_eth msg)) in
  decisions (pi_buffer_id msg)
            (sent (effects_since s (_packet_in_handler msg s).1))
  = if (pi_buffer_id msg =? 0) && negb (out_port =? ofproto.OFPP_FLOOD)
    then 0%nat else 1%nat.
Proof.
  intros table out_port.
  pose proof (packet_in_sent msg s) as H. cbv zeta in H. rewrite H. clear H.
  fold table out_port.
  destruct (out_port =? ofproto.OFPP_FLOOD).
  { by rewrite andb_false_r. }
  rewrite andb_true_r.
  destruct (Z.eqb_spec (pi_buffer_id msg) ofproto.OFP_NO_BUFFER) as [Hnb|Hnb].
  { rewrite Hnb. by vm_compute. }
  destruct (Z.eqb_spec (pi_buffer_id msg) 0) as [Hz|Hz].
  - rewrite Hz. by vm_compute.
  - unfold decisions. rewrite filter_cons_True; [done|].
    cbn [snd is_decision fm_buffer_id]. by rewrite bool_decide_eq_true.
Qed.

(** ** The MAC table after any run of packets *)

(** X22: last writer wins: after any packets, a switch maps an address to
    the ingress port of the last packet that came from it at that switch,
    and addresses no packet came from are looked up as before. *)
Theorem mac_table_last_writer_wins l s dpid mac :
  mac_table (handle_packets l s).1 dpid !! mac
  = match last_seen dpid mac l with
    | Some p => Some p
    | None => mac_table s dpid !! mac
    end.
Proof.
  revert s. induction l as [|m l IH]; intros s; [done|].
  rewrite handle_packets_cons, IH. cbn [last_seen].
  destruct (last_seen dpid mac l) as [p|]; [done|].
  rewrite packet_in_mac_table.
  destruct (decide (id (pi_datapath m) = dpid ∧ src (pi_eth m) = mac))
    as [[<- <-]|Hno].
  - rewrite decide_True by done. apply lookup_insert_eq.
  - case_decide as Hd; [|done]. rewrite lookup_insert_ne; [done|].
    intros Hs. apply Hno. by split.
Qed.

(** ** Path programming and the way datapath ids are read *)

(** The last hexadecimal digit of the datapath id is a letter: [int] does
    not read the string of [to_dict]. *)
Lemma hex_letter_src_id sw :
  (10 ≤ id (sw_dp sw) `mod` 16)%N → src_id_of sw = None.
Proof.
  intros Hletter. destruct sw as [[d] ps]. unfold src_id_of, to_dict in *.
  cbn [sw_dp id d_dpid] in *.
  rewrite int_value_dpid_to_str.
  assert (Hd : d ≠ 0%N) by (intros ->; done).
  destruct (N.to_nat (N.size d)) as [|fuel] eqn:Hfuel.
  { destruct d; [done|]. cbn in Hfuel. lia. }
  cbn [hex_digits]. rewrite (proj2 (N.eqb_neq d 0) Hd).
  destruct (decimal _ 0) as [v|] eqn:Hv; [|done].
  apply hex_digits_decimal in Hv as (vn & va & Hacc & _).
  cbn [decimal] in Hacc.
  destruct (decimal_digit (hex_digit (d `mod` 16)%N)) as [x|] eqn:Hx; [|done].
  apply hex_digit_decimal in Hx as [_ Hlt]; [lia|].
  by apply N.mod_lt.
Qed.

(** A loop over a list with an element whose body always raises ends with
    an exception, of that element or of one before it. *)
Lemma for_each_raises {A} (l : list A) (body : A → M unit) x :
  x ∈ l → (∀ s, ∃ e, (body x s).2 = Raised e) →
  ∀ s, ∃ e, (for_each l body s).2 = Raised e.
Proof.
  intros Hx Hraise. induction l as [|y l IH]; intros s.
  { by apply elem_of_nil in Hx. }
  cbn [for_each]. unfold bind.
  destruct (body y s) as [s0 [[]|e]] eqn:Hy; [|by exists e].
  apply elem_of_cons in Hx as [->|Hx]; [|by apply IH].
  destruct (Hraise s) as [e He]. rewrite Hy in He. done.
Qed.

(** C1 (handler_switch_event, lines 227-262), at a discovered switch whose
    datapath id ends in a hexadecimal letter, 10 being the first such id:
    [to_dict] prints the id in hexadecimal and line 231 reads it with
    [int], which raises [ValueError].  The loop ends with an exception and
    no rule at all is sent to that switch, so a path that goes through it
    does not get its 2 x N rules. *)
Theorem path_programming_stops_at_hex_dpid g s sw :
  sw ∈ switches (self s) →
  (10 ≤ id (sw_dp sw) `mod` 16)%N →
  let r := install_flows g s in
  (∃ e, r.2 = Raised e)
  ∧ ∀ m, (sw_dp sw, m) ∉ sent (effects_since s r.1).
Proof.
  intros Hsw Hletter r. unfold r. clear r.
  pose proof (hex_letter_src_id sw Hletter) as Hnone. split.
  - rewrite install_flows_eval. apply (for_each_raises _ _ sw Hsw).
    intros s'. exists ValueError.
    by rewrite program_switch_unreadable.
  - intros m (sw' & a & f & _ & Ha & _ & Hdp & _)%install_flows_messages.
    rewrite <- (src_id_of_datapath sw sw' Hdp), Hnone in Ha. done.
Qed.

Lemma path_programming_stops_at_hex_dpid_witness :
  let g := chain_graph 10 in
  let r := install_flows g (chain 10) in
  line_switch 10 ∈ switches (self (chain 10))
  ∧ (10 ≤ id (sw_dp (line_switch 10)) `mod` 16)%N
  ∧ switch_path g = [0; 1; 2; 3; 4; 5; 6; 7; 8; 9]
  ∧ r.2 = Raised ValueError
  ∧ length (sent (effects_since (chain 10) r.1)) = 18%nat
  ∧ ∀ m, ({| id := 10 |}, m) ∉ sent (effects_since (chain 10) r.1).
Proof.
  intros g r.
  assert (Hsw : line_switch 10 ∈ switches (self (chain 10)))
    by (vm_compute; repeat constructor).
  assert (Hletter : (10 ≤ id (sw_dp (line_switch 10)) `mod` 16)%N)
    by (vm_compute; discriminate).
  split; [exact Hsw|]. split; [exact Hletter|].
  split; [reflexivity|].
  split; [vm_compute; reflexivity|].
  split; [vm_compute; reflexivity|].
  exact (proj2 (path_programming_stops_at_hex_dpid g (chain 10)
                  (line_switch 10) Hsw Hletter)).
Defined.

(** C8 (handler_switch_event, lines 229-235), at a switch that is not on the
    path and whose datapath id ends in a hexadecimal letter: line 231 raises
    [ValueError] before line 232 looks the id up, so the switch is not
    skipped.  The loop ends there with the exception, in the state the
    switches before it have left: the switches after it in [self.switches],
    those of the path too, get nothing. *)
Theorem absent_switch_ends_loop g s pre sw post s1 :
  let len := Z.of_nat (length (switch_path g)) in
  switches (self s) = pre ++ sw :: post →
  Z.of_N (id (sw_dp sw)) - 1 ∉ switch_path g →
  (10 ≤ id (sw_dp sw) `mod` 16)%N →
  for_each pre (program_switch g len)
    (advance [Print (PStr (LF +:+ "Flows:"))] 0 s) = (s1, Returned tt) →
  program_switch g len sw s1 = (s1, Raised ValueError)
  ∧ install_flows g s = (s1, Raised ValueError).
Proof.
  intros len Hsws _ Hletter Hpre. unfold len in *. clear len.
  pose proof (program_switch_unreadable g
                (Z.of_nat (length (switch_path g))) sw s1
                (hex_letter_src_id sw Hletter)) as Hrun.
  split; [exact Hrun|].
  rewrite install_flows_eval, Hsws.
  rewrite (for_each_app pre (sw :: post) _ _ s1 Hpre). cbn [for_each].
  by rewrite (bind_raised _ _ _ _ _ Hrun).
Qed.

Lemma absent_switch_ends_loop_witness :
  let r := install_flows line_graph line_and_ten in
  switches (self line_and_ten)
  = [line_switch 1] ++ (line_switch 10 :: [line_switch 2; line_switch 3])
  ∧ (Z.of_N (id (sw_dp (line_switch 10))) - 1 ∉ switch_path line_graph)
  ∧ (10 ≤ id (sw_dp (line_switch 10)) `mod` 16)%N
  ∧ r.2 = Raised ValueError
  ∧ map (λ dm, id dm.1) (sent (effects_since line_and_ten r.1))
    = [1%N; 1%N].
Proof.
  intros r.
  assert (Hsws : switches (self line_and_ten)
                 = [line_switch 1]
                   ++ (line_switch 10 :: [line_switch 2; line_switch 3]))
    by reflexivity.
  assert (Hout : Z.of_N (id (sw_dp (line_switch 10))) - 1
                 ∉ switch_path line_graph) by decide_by_evaluation.
  assert (Hletter : (10 ≤ id (sw_dp (line_switch 10)) `mod` 16)%N)
    by (vm_compute; discriminate).
  set (s1 := (for_each [line_switch 1]
                (program_switch line_graph
                   (Z.of_nat (length (switch_path line_graph))))
                (advance [Print (PStr (LF +:+ "Flows:"))] 0
                   line_and_ten)).1).
  assert (Hpre : for_each [line_switch 1]
                   (program_switch line_graph
                      (Z.of_nat (length (switch_path line_graph))))
                   (advance [Print (PStr (LF +:+ "Flows:"))] 0 line_and_ten)
                 = (s1, Returned tt)) by (vm_compute; reflexivity).
  pose proof (proj2 (absent_switch_ends_loop line_graph line_and_ten
                       [line_switch 1] (line_switch 10)
                       [line_switch 2; line_switch 3] s1
                       Hsws Hout Hletter Hpre)) as Hrun.
  split; [exact Hsws|]. split; [exact Hout|]. split; [exact Hletter|].
  unfold r. rewrite Hrun. split; [reflexivity|]. vm_compute. reflexivity.
Defined.
